(** * Table reconstruction of Parsr's TableDetectionModule

    A shallow embedding of
    [server/src/processing/TableDetectionModule/TableDetectionModule.ts]
    and the properties of the table-reconstruction stage proved on it.

    Conventions of the embedding:
    - a JavaScript [number] is an IEEE 754 double: a finite value is
      given by the rational it denotes, and [+] and [-] round the exact
      result to the nearest double, ties to even, overflowing to
      [Infinity] or [-Infinity]; the sign of zero is not modelled (the
      source never divides, and [===] and the comparisons do not tell
      [-0] from [0]);
    - a string is a sequence of one-byte code units;
    - an exception is a value [Throw e] of the result type [res];
    - objects mutated in place (the document, its pages, a raw row, the
      list of spanned positions) are threaded through as explicit state. *)

From Stdlib Require Import List Bool Arith ZArith QArith Qround Lia Lqa.
From Stdlib Require Import String Ascii DecimalString.
Import ListNotations.

Local Open Scope nat_scope.

(** ** JavaScript numbers *)

Inductive number : Type :=
| Fin (q : Q)
| PInf
| NInf
| NaN.

(** *** Rounding to a double *)

(** [2 ^ e] for any integer [e]. *)
Definition pow2 (e : Z) : Q :=
  match e with
  | Zneg p => 1 # (2 ^ p)
  | _ => inject_Z (2 ^ e)
  end.

(** The integer nearest to [q], the even one of two that are equally
    near. *)
Definition roundHalfEven (q : Q) : Z :=
  let f := Qfloor q in
  match (q - inject_Z f ?= 1 # 2)%Q with
  | Lt => f
  | Gt => (f + 1)%Z
  | Eq => if Z.even f then f else (f + 1)%Z
  end.

(** [floor (log2 q)] for [0 < q]. *)
Definition ilog2 (q : Q) : Z :=
  let e := (Z.log2 (Qnum q) - Z.log2 (Zpos (Qden q)))%Z in
  if Qle_bool (pow2 e) q then e else (e - 1)%Z.

(** The double nearest to the positive rational [q], as a rational: 53
    significant bits, the exponent of the last bit no less than -1074
    (subnormal numbers below that). *)
Definition nearest64 (q : Q) : Q :=
  let E := Z.max (ilog2 q - 52) (-1074) in
  (inject_Z (roundHalfEven (q / pow2 E)) * pow2 E)%Q.

(** The double nearest to [q], ties to even; [2 ^ 1024] and beyond is an
    overflow. *)
Definition binary64 (q : Q) : number :=
  match (0 ?= q)%Q with
  | Eq => Fin 0
  | Lt =>
      let v := nearest64 q in
      if Qle_bool (pow2 1024) v then PInf else Fin (Qred v)
  | Gt =>
      let v := nearest64 (- q) in
      if Qle_bool (pow2 1024) v then NInf else Fin (Qred (- v))
  end.

(** Rounding of an exact result. *)
Definition fl (a : number) : number :=
  match a with
  | Fin q => binary64 q
  | _ => a
  end.

(** The number [JSON.parse] makes of a numeric literal of the payload. *)
Definition js (literal : Q) : number := binary64 literal.

(** *** Exact arithmetic on the values *)

Definition num_neg (a : number) : number :=
  match a with
  | Fin q => Fin (- q)
  | PInf => NInf
  | NInf => PInf
  | NaN => NaN
  end.

Definition ext_add (a b : number) : number :=
  match a, b with
  | NaN, _ | _, NaN => NaN
  | Fin p, Fin q => Fin (p + q)
  | PInf, NInf | NInf, PInf => NaN
  | PInf, _ | _, PInf => PInf
  | NInf, _ | _, NInf => NInf
  end.

Definition ext_sub (a b : number) : number := ext_add a (num_neg b).

Definition Qsign (q : Q) : comparison := (0 ?= q)%Q.

Definition ext_mul (a b : number) : number :=
  match a, b with
  | NaN, _ | _, NaN => NaN
  | Fin p, Fin q => Fin (p * q)
  | Fin p, PInf | PInf, Fin p =>
      match Qsign p with Eq => NaN | Lt => PInf | Gt => NInf end
  | Fin p, NInf | NInf, Fin p =>
      match Qsign p with Eq => NaN | Lt => NInf | Gt => PInf end
  | PInf, PInf | NInf, NInf => PInf
  | PInf, NInf | NInf, PInf => NInf
  end.

Definition ext_div (a b : number) : number :=
  match a, b with
  | NaN, _ | _, NaN => NaN
  | Fin p, Fin q =>
      match Qsign q with
      | Eq => match Qsign p with Eq => NaN | Lt => PInf | Gt => NInf end
      | _ => Fin (p / q)
      end
  | Fin _, (PInf | NInf) => Fin 0
  | (PInf | NInf), (PInf | NInf) => NaN
  | PInf, Fin q => match Qsign q with Gt => NInf | _ => PInf end
  | NInf, Fin q => match Qsign q with Gt => PInf | _ => NInf end
  end.

(** *** The operations of the source *)

(** [a + b] and [a - b]: the exact result, rounded. *)
Definition num_add (a b : number) : number := fl (ext_add a b).
Definition num_sub (a b : number) : number := fl (ext_sub a b).

(** [a < b]; every comparison with [NaN] is false. *)
Definition num_ltb (a b : number) : bool :=
  match a, b with
  | NaN, _ | _, NaN => false
  | Fin p, Fin q => negb (Qle_bool q p)
  | NInf, NInf | PInf, _ | _, NInf => false
  | NInf, _ | _, PInf => true
  end.

(** [a === b] on numbers; [NaN] is not equal to itself. *)
Definition num_eqb (a b : number) : bool :=
  match a, b with
  | Fin p, Fin q => Qeq_bool p q
  | PInf, PInf | NInf, NInf => true
  | _, _ => false
  end.

Definition Math_min2 (a b : number) : number :=
  match a, b with
  | NaN, _ | _, NaN => NaN
  | _, _ => if num_ltb b a then b else a
  end.

Definition Math_max2 (a b : number) : number :=
  match a, b with
  | NaN, _ | _, NaN => NaN
  | _, _ => if num_ltb a b then b else a
  end.

(** [Math.min(...xs)] and [Math.max(...xs)]: [Infinity] and [-Infinity]
    on no argument. *)
Definition Math_min (xs : list number) : number := fold_left Math_min2 xs PInf.
Definition Math_max (xs : list number) : number := fold_left Math_max2 xs NInf.

Definition Math_ceil (a : number) : number :=
  match a with
  | Fin q => Fin (inject_Z (Qceiling q))
  | _ => a
  end.

(** ** Exceptions *)

Inductive JsError : Type := SyntaxError | TypeError.

Inductive res (A : Type) : Type :=
| Ok (a : A)
| Throw (e : JsError).
Arguments Ok {A} a.
Arguments Throw {A} e.

Definition bind {A B : Type} (m : res A) (f : A -> res B) : res B :=
  match m with
  | Ok a => f a
  | Throw e => Throw e
  end.

Notation "'let*' x ':=' m 'in' k" := (bind m (fun x => k))
  (at level 10, x name, m at level 200, k at level 200).
Notation "'let*' ' pat ':=' m 'in' k" :=
  (bind m (fun x => match x with pat => k end))
  (at level 10, pat pattern, m at level 200, k at level 200).

(** ** Document model

    The classes of [types/DocumentRepresentation] are outside the source
    at hand; the records below carry the fields this module reads and
    writes.  Element ids other than those of words and of the opaque
    [Other] elements play no role here and are left out. *)

Record BoundingBox : Type := mkBox {
  b_left : number;
  b_top : number;
  b_width : number;
  b_height : number
}.

(** The getters [right] and [bottom]. *)
Definition b_right (b : BoundingBox) : number := num_add (b_left b) (b_width b).
Definition b_bottom (b : BoundingBox) : number := num_add (b_top b) (b_height b).

(** The right and the bottom edge of the rectangle a box denotes. *)
Definition edge_right (b : BoundingBox) : number := ext_add (b_left b) (b_width b).
Definition edge_bottom (b : BoundingBox) : number := ext_add (b_top b) (b_height b).

Record Word : Type := mkWord {
  w_id : nat;
  w_text : string;
  w_box : BoundingBox
}.

Inductive Direction : Type := DLeft | DTop | DRight.

(** [TableCell] and [SpannedTableCell].  [!!tc.box] is tested by
    [createRows], so the box is optional in the model. *)
Inductive Cell : Type :=
| TableCell (box : option BoundingBox) (content : list Word)
            (colspan rowspan : option nat)
| SpannedTableCell (box : option BoundingBox) (direction : Direction).

Definition c_box (c : Cell) : option BoundingBox :=
  match c with
  | TableCell b _ _ _ => b
  | SpannedTableCell b _ => b
  end.

Definition c_content (c : Cell) : list Word :=
  match c with
  | TableCell _ ws _ _ => ws
  | SpannedTableCell _ _ => []
  end.

Record TableRow : Type := mkRow {
  r_content : list Cell;
  r_box : BoundingBox
}.

Record Table : Type := mkTable {
  t_content : list TableRow;
  t_box : BoundingBox
}.

Inductive Element : Type :=
| EWord (w : Word)
| ETable (t : Table)
| EOther (id : nat).

Record Page : Type := mkPage {
  p_elements : list Element;
  p_box : BoundingBox
}.

Record Document : Type := mkDoc {
  d_pages : list Page;
  d_inputFile : string
}.

(** ** Raw payload of the extractor

    A number of the payload is given by its literal, a rational; the
    source reads it as the double nearest to it ([js]). *)

Record RawCell : Type := mkRawCell {
  rc_location : Q * Q;
  rc_size : Q * Q;
  rc_colSpan : option nat;
  rc_rowSpan : option nat
}.

Record TableData : Type := mkTableData {
  td_location : Q * Q;
  td_size : Q * Q;
  td_cols : list (Q * Q);
  td_rows : list (Q * Q);
  td_cells : list (list (option RawCell));
  td_content : option (list (list string));
  td_flavor : string
}.

Record PageData : Type := mkPageData {
  pd_page : Z;
  pd_tables : list TableData
}.

(** ** Collaborators outside the source *)

(** Modelled from the spec: [Page.getElementsOfType] is not part of the
    source at hand.  A page is an "ordered, flat sequence of Elements"
    and the engine reads "the page's current Word set" from
    [Page.elements]: the words of a page are its top-level [Word]
    elements, in page order. *)
Definition page_words (p : Page) : list Word :=
  flat_map (fun e => match e with EWord w => [w] | _ => [] end) (p_elements p).

Definition page_tables (p : Page) : list Table :=
  flat_map (fun e => match e with ETable t => [t] | _ => [] end) (p_elements p).

(** Modelled from the spec: the cells of a page are the cells "referenced
    by any TableCell on that page", reached through the page's tables
    and their rows. *)
Definition table_cells (t : Table) : list Cell := flat_map r_content (t_content t).
Definition page_cells (p : Page) : list Cell := flat_map table_cells (page_tables p).

(** Modelled from the spec: [Document.getElementsOfType<Table>]. *)
Definition doc_tables (d : Document) : list Table := flat_map page_tables (d_pages d).

(** Modelled from the spec: [BoundingBox.getOverlap] is not part of the
    source at hand.  "compute intersection rectangle of two boxes; if
    empty, proportion = 0.  box1OverlapProportion(A,B) =
    area(intersection)/area(A)".  The spec gives the proportion as a
    ratio of areas of rectangles; it is taken on the exact values the
    boxes denote. *)
Definition box1OverlapProportion (a b : BoundingBox) : number :=
  let w := ext_sub (Math_min2 (edge_right a) (edge_right b))
                   (Math_max2 (b_left a) (b_left b)) in
  let h := ext_sub (Math_min2 (edge_bottom a) (edge_bottom b))
                   (Math_max2 (b_top a) (b_top b)) in
  if num_ltb (Fin 0) w && num_ltb (Fin 0) h
  then ext_div (ext_mul w h) (ext_mul (b_width a) (b_height a))
  else Fin 0.

(** ** Reconstruction engine *)

Definition createTable (tableData : TableData) (pageHeight : number) : Table :=
  let tableBounds :=
    mkBox (js (fst (td_location tableData)))
          (num_sub pageHeight (js (snd (td_location tableData))))
          (js (fst (td_size tableData)))
          (js (snd (td_size tableData))) in
  mkTable [] tableBounds.

Definition wordsInCellBox (cellBounds : BoundingBox) (pageWords : list Word)
  : list Word :=
  filter (fun w => num_ltb (Fin (75 # 100)) (box1OverlapProportion (w_box w) cellBounds))
         pageWords.

Record SpannedCellPosition : Type := mkSpanned {
  sc_x : nat;
  sc_y : nat;
  sc_direction : Direction
}.

(** [spannedCells.find(sc => sc.x === colIndex && sc.y === rowIndex)] *)
Definition findSpanned (spannedCells : list SpannedCellPosition)
           (colIndex rowIndex : nat) : option SpannedCellPosition :=
  find (fun sc => (sc_x sc =? colIndex) && (sc_y sc =? rowIndex)) spannedCells.

(** [span || 1] *)
Definition spanOr1 (span : option nat) : nat :=
  match span with
  | Some (S n) => S n
  | _ => 1
  end.

(** The positions pushed by the two nested [forEach] over
    [Array(colSpan || 1).keys()] and [Array(rowSpan || 1).keys()]. *)
Definition spannedBy (cell : RawCell) (colIndex rowIndex : nat)
  : list SpannedCellPosition :=
  flat_map (fun x =>
    flat_map (fun y =>
      if negb (x =? 0) || negb (y =? 0)
      then [mkSpanned (x + colIndex) (y + rowIndex)
                      (if 0 <? x then DLeft else DTop)]
      else [])
      (seq 0 (spanOr1 (rc_rowSpan cell))))
    (seq 0 (spanOr1 (rc_colSpan cell))).

(** [row.splice(colIndex, 0, null)] *)
Definition splice_null (row : list (option RawCell)) (colIndex : nat)
  : list (option RawCell) :=
  firstn colIndex row ++ None :: skipn colIndex row.

(** The state the column loop of [createRowCells] mutates: the raw row
    (spliced in place) and the shared list of spanned positions. *)
Record RowState : Type := mkRowState {
  rs_row : list (option RawCell);
  rs_spannedCells : list SpannedCellPosition
}.

Section CreateRowCells.

Variable rowIndex : nat.
Variable pageHeight : number.
Variable pageWords : list Word.
Variable cols : list (Q * Q).
Variable rows : list (Q * Q).

(** The [SpannedTableCell] pushed for a spanned position: its box comes
    from [cols[colIndex]] and the flipped [rows[rowIndex]]. *)
Definition spannedCellAt (col ry : Q * Q) (direction : Direction) : Cell :=
  let '(x1, x2) := col in
  let y1 := num_sub pageHeight (js (fst ry)) in
  let y2 := num_sub pageHeight (js (snd ry)) in
  let box := mkBox (js x1) y1 (num_sub (js x2) (js x1)) (num_sub y2 y1) in
  SpannedTableCell (Some box) direction.

(** The [TableCell] pushed for a raw cell. *)
Definition tableCellOf (cell : RawCell) : Cell :=
  let cellBounds :=
    mkBox (js (fst (rc_location cell)))
          (num_sub pageHeight (js (snd (rc_location cell))))
          (js (fst (rc_size cell)))
          (js (snd (rc_size cell))) in
  TableCell (Some cellBounds) (wordsInCellBox cellBounds pageWords)
            (rc_colSpan cell) (rc_rowSpan cell).

(** One turn of the column loop: the cell pushed onto [cells], if any,
    and the state left behind.  [colIndex] is below [cols.length], so
    the default of [nth] is never reached; [rows[rowIndex].map] throws
    when the row has no boundary pair. *)
Definition columnStep (colIndex : nat) (st : RowState)
  : res (option Cell * RowState) :=
  match findSpanned (rs_spannedCells st) colIndex rowIndex with
  | Some spannedCell =>
      match nth_error rows rowIndex with
      | None => Throw TypeError
      | Some ry =>
          let row' := if List.length (rs_row st) <? List.length cols
                      then splice_null (rs_row st) colIndex
                      else rs_row st in
          Ok (Some (spannedCellAt (nth colIndex cols (0, 0)%Q) ry
                                  (sc_direction spannedCell)),
              mkRowState row' (rs_spannedCells st))
      end
  | None =>
      match nth_error (rs_row st) colIndex with
      | Some (Some cell) =>
          let spannedCells' :=
            rs_spannedCells st ++ spannedBy cell colIndex rowIndex in
          Ok (Some (tableCellOf cell), mkRowState (rs_row st) spannedCells')
      | _ => Ok (None, st)
      end
  end.

(** [for (let colIndex = ...; colIndex < cols.length; colIndex++)], with
    [n] turns left. *)
Fixpoint columnLoop (n colIndex : nat) (st : RowState) (cells : list Cell)
  : res (list Cell * RowState) :=
  match n with
  | O => Ok (cells, st)
  | S n' =>
      let* '(pushed, st') := columnStep colIndex st in
      let cells' := match pushed with
                    | Some c => cells ++ [c]
                    | None => cells
                    end in
      columnLoop n' (S colIndex) st' cells'
  end.

Definition createRowCells (row : list (option RawCell))
           (spannedCells : list SpannedCellPosition)
  : res (list Cell * RowState) :=
  columnLoop (List.length cols) 0 (mkRowState row spannedCells) [].

End CreateRowCells.

(** [tableCells.filter(tc => !!tc.box)], as the boxes themselves; the
    getters [left], [top], [right], [bottom] of a cell read its box. *)
Definition boxesOf (cells : list Cell) : list BoundingBox :=
  flat_map (fun tc => match c_box tc with Some b => [b] | None => [] end) cells.

Definition rowBox (tableCells : list Cell) : BoundingBox :=
  let maxRight := Math_max (map b_right (boxesOf tableCells)) in
  let minLeft := Math_min (map b_left (boxesOf tableCells)) in
  let minTop := Math_min (map b_top (boxesOf tableCells)) in
  let minBottom := Math_min (map b_bottom (boxesOf tableCells)) in
  let rowWidth := num_sub maxRight minLeft in
  let rowHeight := num_sub minBottom minTop in
  mkBox minLeft minTop rowWidth rowHeight.

(** [tableData.cells.map((row, rowIndex) => ...)], the list
    [spannedCells] being shared by all rows. *)
Fixpoint createRows_from (pageHeight : number) (pageWords : list Word)
         (cols rows : list (Q * Q)) (rowIndex : nat)
         (cells : list (list (option RawCell)))
         (spannedCells : list SpannedCellPosition) : res (list TableRow) :=
  match cells with
  | [] => Ok []
  | row :: rest =>
      let* '(tableCells, st) :=
        createRowCells rowIndex pageHeight pageWords cols rows row spannedCells in
      let* trs :=
        createRows_from pageHeight pageWords cols rows (S rowIndex) rest
                        (rs_spannedCells st) in
      Ok (mkRow tableCells (rowBox tableCells) :: trs)
  end.

Definition createRows (tableData : TableData) (page : Page) : res (list TableRow) :=
  let pageWords := page_words page in
  createRows_from (b_height (p_box page)) pageWords
                  (td_cols tableData) (td_rows tableData) 0
                  (td_cells tableData) [].

(** ** Strings *)

(** White space and line terminators removed by [String.prototype.trim]
    among the one-byte code units: U+0009 to U+000D, U+0020 and
    U+00A0. *)
Definition isWhiteSpace (c : ascii) : bool :=
  let n := nat_of_ascii c in
  (n =? 32) || ((9 <=? n) && (n <=? 13)) || (n =? 160).

Fixpoint dropWhile {A : Type} (p : A -> bool) (l : list A) : list A :=
  match l with
  | [] => []
  | a :: l' => if p a then dropWhile p l' else l
  end.

Definition trim (s : string) : string :=
  string_of_list_ascii
    (rev (dropWhile isWhiteSpace
            (rev (dropWhile isWhiteSpace (list_ascii_of_string s))))).

(** [xs.join(' ')] *)
Definition join (xs : list string) : string := String.concat " " xs.

(** Modelled from the spec: [TableCell.toString] is not part of the
    source at hand.  The text of a cell is "the concatenation of its
    cell's word texts", the words being set apart by a space: the cell
    coalesced from the cells with texts "this is only one" and "cell"
    has the text "this is only one cell".  A spanned cell has no
    content. *)
Definition TableCell_toString (c : Cell) : string :=
  String.concat " " (map w_text (c_content c)).

(** ** Content-reconciliation merge *)

(** Modelled from the spec: [utils.groupConsecutiveNumbersInArray] is not
    part of the source at hand.  "Group consecutive candidate column
    indices into maximal runs". *)
Fixpoint groupConsecutiveNumbersInArray (l : list nat) : list (list nat) :=
  match l with
  | [] => []
  | x :: rest =>
      match groupConsecutiveNumbersInArray rest with
      | (y :: g) :: gs =>
          if y =? S x then (x :: y :: g) :: gs else [x] :: (y :: g) :: gs
      | gs => [x] :: gs
      end
  end.

(** [xs.filter((_, index) => p(index))], the first index being [i]. *)
Fixpoint filter_index {A : Type} (p : nat -> bool) (i : nat) (xs : list A)
  : list A :=
  match xs with
  | [] => []
  | x :: xs' =>
      if p i then x :: filter_index p (S i) xs' else filter_index p (S i) xs'
  end.

(** [xs.includes(i)] *)
Definition includes (xs : list nat) (i : nat) : bool := existsb (Nat.eqb i) xs.

Definition unionBox (bs : list BoundingBox) : BoundingBox :=
  let l := Math_min (map b_left bs) in
  let t := Math_min (map b_top bs) in
  mkBox l t (num_sub (Math_max (map b_right bs)) l)
        (num_sub (Math_max (map b_bottom bs)) t).

(** Modelled from the spec: [TableRow.mergeCells] is not part of the
    source at hand.  "each group's cells are coalesced into one cell
    whose box is the union of the group's boxes and whose word content is
    the concatenation in left-to-right order; cells outside any group are
    unchanged."  The coalesced cell stands where the group's first
    column stood. *)
Fixpoint mergeCells_from (all : list Cell) (groups : list (list nat))
         (i : nat) (cells : list Cell) : list Cell :=
  match cells with
  | [] => []
  | c :: cells' =>
      let rest := mergeCells_from all groups (S i) cells' in
      match find (fun g => includes g i) groups with
      | None => c :: rest
      | Some g =>
          if match hd_error g with Some j => j =? i | None => false end
          then
            let members := filter_index (includes g) 0 all in
            TableCell (Some (unionBox (boxesOf members)))
                      (flat_map c_content members) None None :: rest
          else rest
      end
  end.

Definition mergeCells (row : TableRow) (groups : list (list nat)) : TableRow :=
  mkRow (mergeCells_from (r_content row) groups 0 (r_content row)) (r_box row).

(** First pass of [getMergeCandidateCellPositions]:
    [dataRow.forEach((cellStr, nCol) => ...)]. *)
Fixpoint candidatesInRow (tableContent : list TableRow) (nRow : nat)
         (dataRow : list string) (nCol : nat) : res (list nat) :=
  match dataRow with
  | [] => Ok []
  | cellStr :: rest =>
      match nth_error tableContent nRow with
      | None => Throw TypeError
      | Some tr =>
          match nth_error (r_content tr) nCol with
          | None => Throw TypeError
          | Some cell =>
              let tableCellContent := TableCell_toString cell in
              let expectedCellContent := cellStr in
              let* more := candidatesInRow tableContent nRow rest (S nCol) in
              Ok (if negb (tableCellContent =? expectedCellContent)%string
                  then nCol :: more
                  else more)
          end
      end
  end.

(** The object [mergeCandidateCells] as the list of its entries, by
    ascending row key: a row has a key once it has a candidate. *)
Fixpoint candidateRows (tableContent : list TableRow)
         (tableData : list (list string)) (nRow : nat)
  : res (list (nat * list nat)) :=
  match tableData with
  | [] => Ok []
  | dataRow :: rest =>
      let* cands := candidatesInRow tableContent nRow dataRow 0 in
      let* more := candidateRows tableContent rest (S nRow) in
      Ok (match cands with
          | [] => more
          | _ => (nRow, cands) :: more
          end)
  end.

(** Second pass: runs of consecutive columns, single columns dropped,
    rows left without a run deleted. *)
Definition candidateGroups (cands : list nat) : list (list nat) :=
  filter (fun group => 1 <? List.length group)
         (groupConsecutiveNumbersInArray cands).

Definition getMergeCandidateCellPositions (tableContent : list TableRow)
           (tableData : list (list string))
  : res (list (nat * list (list nat))) :=
  let* mergeCandidateCells := candidateRows tableContent tableData 0 in
  Ok (flat_map (fun '(nRow, cands) =>
                  match candidateGroups cands with
                  | [] => []
                  | groups => [(nRow, groups)]
                  end)
               mergeCandidateCells).

Section JoinRow.

(** [tableData[cellRow]] and [tableContent[cellRow].content]. *)
Variable dataRow : list string.
Variable rowCells : list Cell.

(** A candidate column is an index of the data row, so the default of
    [nth] is never reached. *)
Definition expectedTextInSubGroup (cellSubGroup : list nat) : string :=
  trim (join (map (fun cellCol => trim (nth cellCol dataRow EmptyString))
                  cellSubGroup)).

Definition subgroupText (cellSubGroup : list nat) : string :=
  let tableContentSubGroup := filter_index (includes cellSubGroup) 0 rowCells in
  trim (join (map (fun cell => trim (TableCell_toString cell))
                  tableContentSubGroup)).

(** [for (let i = 0; i < cellColGroup.length; i += 1)], with [n] turns
    left. *)
Fixpoint subGroupLoop (cellColGroup : list nat) (n i : nat)
         (cellSubGroup : list nat) (groupsToMerge : list (list nat))
  : list (list nat) :=
  match n with
  | O => groupsToMerge
  | S n' =>
      let expected := expectedTextInSubGroup cellSubGroup in
      let actual := subgroupText cellSubGroup in
      let groupsToMerge' :=
        if (expected =? actual)%string
        then groupsToMerge ++ [cellSubGroup]
        else groupsToMerge in
      let cellSubGroup' :=
        if (String.length expected <? String.length actual)
           || (expected =? actual)%string
        then []
        else cellSubGroup in
      let cellSubGroup'' :=
        match nth_error cellColGroup (i + 1) with
        | Some c => cellSubGroup' ++ [c]
        | None => cellSubGroup'
        end in
      subGroupLoop cellColGroup n' (i + 1) cellSubGroup'' groupsToMerge'
  end.

(** [mergeCandidateCells[cellRow].forEach(cellColGroup => ...)] *)
Definition rowGroupsToMerge (groups : list (list nat)) : list (list nat) :=
  fold_left
    (fun groupsToMerge cellColGroup =>
       subGroupLoop cellColGroup (List.length cellColGroup) 0
                    (firstn 1 cellColGroup) groupsToMerge)
    groups [].

End JoinRow.

(** [xs[i] = x] for an index in range. *)
Fixpoint set_nth {A : Type} (i : nat) (x : A) (xs : list A) : list A :=
  match xs, i with
  | [], _ => []
  | _ :: xs', O => x :: xs'
  | y :: xs', S i' => y :: set_nth i' x xs'
  end.

Definition joinRow (tableData : list (list string))
           (tableContent : list TableRow) (entry : nat * list (list nat))
  : list TableRow :=
  let '(cellRow, groups) := entry in
  match nth_error tableContent cellRow with
  | None => tableContent
  | Some row =>
      let groupsToMerge :=
        rowGroupsToMerge (nth cellRow tableData []) (r_content row) groups in
      if 0 <? List.length groupsToMerge
      then set_nth cellRow (mergeCells row groupsToMerge) tableContent
      else tableContent
  end.

Definition joinCellsByContent (tableContent : list TableRow)
           (tableData : list (list string)) : res (list TableRow) :=
  let* mergeCandidateCells :=
    getMergeCandidateCellPositions tableContent tableData in
  Ok (fold_left (joinRow tableData) mergeCandidateCells tableContent).

(** ** Validity heuristic *)

(** [rowIndex] is always an index handed out by [some], so the row
    exists. *)
Definition existPreviousRow (rowIndex : nat) (table : Table) : option TableRow :=
  match nth_error (t_content table) rowIndex with
  | None => None
  | Some row =>
      let findRowWithBottom := Math_ceil (b_top (r_box row)) in
      hd_error
        (filter (fun rowToFind =>
                   num_eqb (Math_ceil (num_add (b_top (r_box rowToFind))
                                               (b_height (r_box rowToFind))))
                           findRowWithBottom)
                (t_content table))
  end.

Definition existAdjacentRow (rowIndex : nat) (table : Table) : option TableRow :=
  if rowIndex + 1 =? List.length (t_content table)
  then existPreviousRow rowIndex table
  else
    match nth_error (t_content table) rowIndex with
    | None => None
    | Some row =>
        let findRowWithTop :=
          Math_ceil (num_add (b_top (r_box row)) (b_height (r_box row))) in
        hd_error
          (filter (fun rowToFind =>
                     num_eqb (Math_ceil (b_top (r_box rowToFind))) findRowWithTop)
                  (t_content table))
    end.

(** [!x] for an object or [undefined]. *)
Definition isUndefined {A : Type} (x : option A) : bool :=
  match x with
  | Some _ => false
  | None => true
  end.

Definition isFalseTable (table : Table) : bool :=
  let isFalse :=
    existsb (fun index => isUndefined (existAdjacentRow index table))
            (seq 0 (List.length (t_content table))) in
  let only1Row := List.length (t_content table) =? 1 in
  only1Row || isFalse.

(** ** Attaching tables to pages *)

(** The table [addTable] holds when it reaches the validity check:
    [createTable], [createRows] and, for a stream table with an
    expected-text grid, [joinCellsByContent]. *)
Definition reconstructTable (tableData : TableData) (page : Page) : res Table :=
  let pageHeight := b_height (p_box page) in
  let table := createTable tableData pageHeight in
  let* rows := createRows tableData page in
  let* content :=
    match td_content tableData with
    | Some data =>
        if (td_flavor tableData =? "stream")%string
        then joinCellsByContent rows data
        else Ok rows
    | None => Ok rows
    end in
  Ok (mkTable content (t_box table)).

Definition addTable (tableData : TableData) (page : Page) : res Page :=
  let* table := reconstructTable tableData page in
  if negb (isFalseTable table)
  then Ok (mkPage (p_elements page ++ [ETable table]) (p_box page))
  else Ok page.

(** [doc.pages[pageData.page - 1]]: [undefined] outside the array. *)
Definition pageAt (doc : Document) (page : Z) : option Page :=
  if (page - 1 <? 0)%Z then None
  else nth_error (d_pages doc) (Z.to_nat (page - 1)).

(** The page object is mutated in place: the document sees the new
    element list at the same index.  [page.box] on [undefined] throws. *)
Definition addTableAt (page : Z) (doc : Document) (tableData : TableData)
  : res Document :=
  match pageAt doc page with
  | None => Throw TypeError
  | Some p =>
      let* p' := addTable tableData p in
      Ok (mkDoc (set_nth (Z.to_nat (page - 1)) p' (d_pages doc)) (d_inputFile doc))
  end.

Fixpoint foldM {A B : Type} (f : A -> B -> res A) (a : A) (xs : list B) : res A :=
  match xs with
  | [] => Ok a
  | x :: xs' => let* a' := f a x in foldM f a' xs'
  end.

Definition addTables (tablesData : list PageData) (doc : Document) : res Document :=
  foldM (fun doc pageData =>
           foldM (addTableAt (pd_page pageData)) doc (pd_tables pageData))
        doc tablesData.

(** ** Word deduplication *)

Definition isWord (e : Element) : bool :=
  match e with
  | EWord _ => true
  | _ => false
  end.

(** [element.id]; the ids of tables are not modelled, and are never
    looked at: for an element that is not a word the filter of
    [removeWordsUsedInCells] keeps it whatever its id. *)
Definition element_id (e : Element) : option nat :=
  match e with
  | EWord w => Some (w_id w)
  | EOther id => Some id
  | ETable _ => None
  end.

Definition cellWordsIds (page : Page) : list nat :=
  map w_id (flat_map c_content (page_cells page)).

Definition removeWordsOfPage (page : Page) : Page :=
  let ids := cellWordsIds page in
  mkPage
    (filter (fun element =>
               let isUsedInCell :=
                 match element_id element with
                 | Some id => includes ids id
                 | None => false
                 end in
               (isWord element && negb isUsedInCell) || negb (isWord element))
            (p_elements page))
    (p_box page).

Definition removeWordsUsedInCells (document : Document) : Document :=
  mkDoc (map removeWordsOfPage (d_pages document)) (d_inputFile document).

(** ** The extractor boundary and the stage *)

Record Options : Type := mkOptions {
  o_pages : option (list nat);
  o_flavor : option string;
  o_table_areas : option (list string)
}.

Record TableExtractorResult : Type := mkResult {
  stdout : string;
  stderr : string;
  status : Z
}.

(** The interface [TableExtractor]; a rejected promise or a throwing
    call is [Throw]. *)
Class TableExtractor : Type := {
  readTables : string -> Options -> res TableExtractorResult
}.

(** What the stage takes from its surroundings: the file system, the
    [file-type] sniffer and [JSON.parse] on the payload type. *)
Record Runtime : Type := mkRuntime {
  existsSync : string -> res bool;
  fileTypeExt : string -> res (option string);
  JSON_parse : string -> res (list PageData)
}.

(** [CommandExecuter.detectTables]: resolves with the text printed by
    the detector, or rejects with [{ error }]. *)
Definition DetectTables : Type :=
  string -> string -> string -> string -> list string -> string + string.

Definition pagesToString (pages : list nat) : string :=
  String.concat "," (map (fun n => NilEmpty.string_of_uint (Nat.to_uint n)) pages).

#[export] Instance defaultExtractor (detectTables : DetectTables) : TableExtractor := {
  readTables inputFile options :=
    let lineScale := "45"%string in
    match o_pages options with
    | None => Throw TypeError
    | Some ps =>
        let pages := if negb (List.length ps =? 0) then pagesToString ps
                     else "all"%string in
        let flavor :=
          match o_flavor options with
          | Some f =>
              if (f =? "lattice")%string || (f =? "stream")%string
              then f else "lattice"%string
          | None => "lattice"%string
          end in
        let table_areas :=
          match o_table_areas options with Some a => a | None => [] end in
        match detectTables inputFile flavor lineScale pages table_areas with
        | inl out => Ok (mkResult out EmptyString 0)
        | inr error => Ok (mkResult EmptyString error 1)
        end
    end
}.

Section Stage.

Context (rt : Runtime) (extractor : TableExtractor).

(** One turn of [for (const config of this.options.runConfig)]. *)
Definition runPass (doc : Document) (config : Options) : res Document :=
  let* tableExtractor := readTables (d_inputFile doc) config in
  if (status tableExtractor =? 0)%Z
  then
    let* tablesData := JSON_parse rt (stdout tableExtractor) in
    let* doc1 := addTables tablesData doc in
    Ok (removeWordsUsedInCells doc1)
  else Ok doc.

Definition main (runConfig : list Options) (doc : Document) : res Document :=
  match existsSync rt (d_inputFile doc) with
  | Throw _ => Ok doc
  | Ok false => Ok doc
  | Ok true =>
      let* fileType := fileTypeExt rt (d_inputFile doc) in
      match fileType with
      | None => Ok doc
      | Some ext =>
          if negb (ext =? "pdf")%string then Ok doc
          else if negb (List.length (doc_tables doc) =? 0) then Ok doc
          else foldM runPass doc runConfig
      end
  end.

End Stage.

(** ** The grid view of a reconstructed row *)

Definition cat_options {A : Type} (l : list (option A)) : list A :=
  flat_map (fun o => match o with Some a => [a] | None => [] end) l.

(** The raw cell the row holds at [col]; none where the entry is
    [null] or missing. *)
Definition rawAt (row : list (option RawCell)) (col : nat) : option RawCell :=
  match nth_error row col with
  | Some (Some cell) => Some cell
  | _ => None
  end.

Section RowSlots.

Variable rowIndex : nat.
Variable pageHeight : number.
Variable pageWords : list Word.
Variable cols : list (Q * Q).
Variable rows : list (Q * Q).

(** The column loop again, keeping for each column what was pushed:
    [Some cell], or [None] when nothing was. *)
Fixpoint columnSlots (n colIndex : nat) (st : RowState)
  : res (list (option Cell) * RowState) :=
  match n with
  | O => Ok ([], st)
  | S n' =>
      let* '(pushed, st') := columnStep rowIndex pageHeight pageWords cols rows colIndex st in
      let* '(slots, st'') := columnSlots n' (S colIndex) st' in
      Ok (pushed :: slots, st'')
  end.

(** What the grid position [(col, rowIndex)] holds, told from the row
    as padded and the spanned positions as registered when the row is
    done ([st]). *)
Inductive SlotAt (st : RowState) (col : nat) : option Cell -> Prop :=
| SlotSpanned sc ry :
    findSpanned (rs_spannedCells st) col rowIndex = Some sc ->
    nth_error rows rowIndex = Some ry ->
    SlotAt st col (Some (spannedCellAt pageHeight (nth col cols (0, 0)%Q) ry
                                       (sc_direction sc)))
| SlotCell raw :
    findSpanned (rs_spannedCells st) col rowIndex = None ->
    rawAt (rs_row st) col = Some raw ->
    SlotAt st col (Some (tableCellOf pageHeight pageWords raw))
| SlotEmpty :
    findSpanned (rs_spannedCells st) col rowIndex = None ->
    rawAt (rs_row st) col = None ->
    SlotAt st col None.

End RowSlots.

(** ** The grid of a reconstructed table *)

(** What the column loop leaves at the positions of the grid: for each
    row, for each column, the cell pushed there or nothing. *)
Definition Grid : Type := list (list (option Cell)).

Definition gridAt (G : Grid) (col row : nat) : option Cell :=
  nth col (nth row G []) None.

(** [createRows] again, keeping the slots of every row. *)
Fixpoint createGrid_from (pageHeight : number) (pageWords : list Word)
         (cols rows : list (Q * Q)) (rowIndex : nat)
         (cells : list (list (option RawCell)))
         (spannedCells : list SpannedCellPosition) : res Grid :=
  match cells with
  | [] => Ok []
  | row :: rest =>
      let* '(slots, st) :=
        columnSlots rowIndex pageHeight pageWords cols rows (List.length cols) 0
                    (mkRowState row spannedCells) in
      let* G :=
        createGrid_from pageHeight pageWords cols rows (S rowIndex) rest
                        (rs_spannedCells st) in
      Ok (slots :: G)
  end.

(** The positions a cell with the given spans registers as spanned when
    it stands at [(colIndex, rowIndex)]: those of its rectangle other
    than its own, tagged 'left' off its column and 'top' in it. *)
Definition spannedOver (colspan rowspan : option nat) (colIndex rowIndex : nat)
  : list SpannedCellPosition :=
  flat_map (fun x =>
    flat_map (fun y =>
      if negb (x =? 0) || negb (y =? 0)
      then [mkSpanned (x + colIndex) (y + rowIndex)
                      (if 0 <? x then DLeft else DTop)]
      else [])
      (seq 0 (spanOr1 rowspan)))
    (seq 0 (spanOr1 colspan)).

(** What the cell in a slot registers: a TableCell the positions it
    spans, a SpannedTableCell or an empty slot nothing. *)
Definition registeredBy (slot : option Cell) (col row : nat)
  : list SpannedCellPosition :=
  match slot with
  | Some (TableCell _ _ colspan rowspan) => spannedOver colspan rowspan col row
  | _ => []
  end.

(** The slots of a list with their indices, counted from [i]. *)
Definition indexedFrom {A : Type} (i : nat) (l : list A) : list (nat * A) :=
  combine (seq i (List.length l)) l.

Definition registrationsOfRow (col0 row : nat) (slots : list (option Cell))
  : list SpannedCellPosition :=
  flat_map (fun entry => registeredBy (snd entry) (fst entry) row)
           (indexedFrom col0 slots).

(** The spanned positions registered by the cells of a grid, taken row
    by row and column by column: the running list of the source when
    the last row is done. *)
Definition registrationsFrom (row0 : nat) (G : Grid) : list SpannedCellPosition :=
  flat_map (fun entry => registrationsOfRow 0 (fst entry) (snd entry))
           (indexedFrom row0 G).

Definition registrations (G : Grid) : list SpannedCellPosition :=
  registrationsFrom 0 G.

Definition isSome {A : Type} (x : option A) : bool :=
  match x with
  | Some _ => true
  | None => false
  end.

(** The columns before [col] that the registrations [registered] span
    in [row]. *)
Definition spannedColumnsBefore (registered : list SpannedCellPosition)
           (col row : nat) : list nat :=
  filter (fun c => isSome (findSpanned registered c row)) (seq 0 col).

(** The nulls a raw row of [len] entries has been padded with when the
    loop reaches [col]: one for each spanned column before [col], until
    the row has as many entries as there are columns. *)
Definition nullsBefore (registered : list SpannedCellPosition)
           (ncols len col row : nat) : nat :=
  Nat.min (List.length (spannedColumnsBefore registered col row)) (ncols - len).

(** The raw cell found at [col] in the padded row: the entries of the
    raw row stand in their order, moved to the right by the nulls
    padded before them. *)
Definition paddedAt (registered : list SpannedCellPosition) (ncols : nat)
           (raw : list (option RawCell)) (col row : nat) : option RawCell :=
  rawAt raw (col - nullsBefore registered ncols (List.length raw) col row).

(** What the grid holds at [(col, row)], told from the positions
    registered as spanned: a SpannedTableCell where the position was
    registered, with the direction of the first registration; otherwise
    the TableCell of the raw cell the padded row holds at [col], and
    nothing where that entry is null or missing. *)
Definition slotOf (pageHeight : number) (pageWords : list Word)
           (cols rows : list (Q * Q)) (registered : list SpannedCellPosition)
           (raw : list (option RawCell)) (col row : nat) : option Cell :=
  match findSpanned registered col row with
  | Some sc =>
      Some (spannedCellAt pageHeight (nth col cols (0, 0)%Q) (nth row rows (0, 0)%Q)
                          (sc_direction sc))
  | None =>
      option_map (tableCellOf pageHeight pageWords)
                 (paddedAt registered (List.length cols) raw col row)
  end.

(** When the loop reaches column [c] of row [rowIndex], the row is the
    raw row with the nulls padded so far: they stand before [c], and
    from [c] on the raw entries follow in their order. *)
Definition Padded (rowIndex : nat) (cols : list (Q * Q))
           (raw : list (option RawCell)) (c : nat) (st : RowState) : Prop :=
  List.length (rs_row st)
  = List.length raw
    + nullsBefore (rs_spannedCells st) (List.length cols) (List.length raw) c rowIndex
  /\ forall j, c <= j ->
       nth_error (rs_row st) j
       = nth_error raw
           (j - nullsBefore (rs_spannedCells st) (List.length cols) (List.length raw)
                            c rowIndex).

(** The grid equation: one row of slots for each raw row, one slot for
    each column, and every slot what [slotOf] tells from the positions
    that the cells of the grid register. *)
Definition GridOf (pageHeight : number) (pageWords : list Word)
           (cols rows : list (Q * Q)) (cells : list (list (option RawCell)))
           (G : Grid) : Prop :=
  List.length G = List.length cells
  /\ forall row raw,
      nth_error cells row = Some raw ->
      List.length (nth row G []) = List.length cols
      /\ forall col, col < List.length cols ->
           gridAt G col row
           = slotOf pageHeight pageWords cols rows (registrations G) raw col row.

(** What a turn of the column loop at column [c] leaves untouched: the
    lookups of spanned positions at the columns up to [c], and the raw
    cells before [c]. *)
Definition Framed (rowIndex c : nat) (st st' : RowState) : Prop :=
  (forall col, col <= c ->
     findSpanned (rs_spannedCells st') col rowIndex
     = findSpanned (rs_spannedCells st) col rowIndex)
  /\ (forall col, col < c -> rawAt (rs_row st') col = rawAt (rs_row st) col).

(** The direction a raw cell gives to the position at offset [dx]. *)
Definition spanDirection (dx : nat) : Direction :=
  if 0 <? dx then DLeft else DTop.

(** ** The merge in the words of the specification *)

(** The column positions of a row whose cell text differs from the
    expected text. *)
Definition differing (row : TableRow) (dataRow : list string) : list nat :=
  filter (fun col =>
            match nth_error (r_content row) col, nth_error dataRow col with
            | Some cell, Some expected =>
                negb (TableCell_toString cell =? expected)%string
            | _, _ => false
            end)
         (seq 0 (List.length dataRow)).

(** A run of consecutive numbers. *)
Inductive consecutiveRun : list nat -> Prop :=
| run_one x : consecutiveRun [x]
| run_next x y run : y = S x -> consecutiveRun (y :: run) -> consecutiveRun (x :: y :: run).

(** No run can be continued by the run that follows it. *)
Fixpoint separatedRuns (runs : list (list nat)) : Prop :=
  match runs with
  | run1 :: ((run2 :: _) as rest) =>
      (forall y, hd_error run2 = Some y -> y <> S (last run1 0))
      /\ separatedRuns rest
  | _ => True
  end.

Section Greedy.

Variable dataRow : list string.
Variable rowCells : list Cell.

(** The subgroup [sub] has the expected text. *)
Definition textsAgree (sub : list nat) : bool :=
  (expectedTextInSubGroup dataRow sub =? subgroupText rowCells sub)%string.

(** The actual text of [sub] is strictly longer than the expected one. *)
Definition actualLonger (sub : list nat) : bool :=
  String.length (expectedTextInSubGroup dataRow sub)
  <? String.length (subgroupText rowCells sub).

(** Growing the subgroup [sub] over the columns [rest] still to come:
    commit it when the texts agree and start again at the next column;
    drop it when the actual text is longer and start again at the next
    column; otherwise take the next column in. *)
Fixpoint greedy (rest : list nat) (sub : list nat) : list (list nat) :=
  if textsAgree sub
  then sub :: match rest with [] => [] | c :: rest' => greedy rest' [c] end
  else if actualLonger sub
       then match rest with [] => [] | c :: rest' => greedy rest' [c] end
       else match rest with [] => [] | c :: rest' => greedy rest' (sub ++ [c]) end.

(** The merge groups of one run of candidate columns. *)
Definition greedyRun (run : list nat) : list (list nat) :=
  match run with
  | [] => []
  | c :: rest => greedy rest [c]
  end.

End Greedy.

(** The groups recorded for the row [nRow], if any. *)
Definition groupsOfRow (entries : list (nat * list (list nat))) (nRow : nat)
  : option (list (list nat)) :=
  option_map snd (find (fun entry => fst entry =? nRow) entries).

(** What [joinCellsByContent] makes of the row [nRow]: its merge groups
    are committed when there are any. *)
Definition rowAfterJoin (tableData : list (list string))
           (entries : list (nat * list (list nat))) (nRow : nat) (row : TableRow)
  : TableRow :=
  match groupsOfRow entries nRow with
  | None => row
  | Some groups =>
      let groupsToMerge :=
        rowGroupsToMerge (nth nRow tableData []) (r_content row) groups in
      match groupsToMerge with
      | [] => row
      | _ => mergeCells row groupsToMerge
      end
  end.

(** ** Geometry of finite boxes *)

Definition finiteBox (b : BoundingBox) : Prop :=
  exists l t w h, b = mkBox (Fin l) (Fin t) (Fin w) (Fin h).

(** [number]s compared as in [a <= b], false on [NaN]. *)
Definition num_leb (a b : number) : bool := num_ltb a b || num_eqb a b.


Definition overlapsMuch (w : Word) (cellBounds : BoundingBox) : Prop :=
  num_ltb (Fin (75 # 100)) (box1OverlapProportion (w_box w) cellBounds) = true.

(** ** The validity heuristic in the words of the specification *)

Definition ceilTop (r : TableRow) : number := Math_ceil (b_top (r_box r)).
Definition ceilBottom (r : TableRow) : number :=
  Math_ceil (num_add (b_top (r_box r)) (b_height (r_box r))).

(** Row [row], at index [i] of [t], has a neighbour as the code looks
    for one: when it is not the last row, a row of the table whose
    rounded-up top is its rounded-up bottom; when it is, a row of the
    table whose rounded-up bottom is its rounded-up top.  The row found
    may stand anywhere in the table and may be [row] itself. *)
Definition HasNeighbour (t : Table) (i : nat) (row : TableRow) : Prop :=
  if i + 1 =? List.length (t_content t)
  then exists r, In r (t_content t) /\ num_eqb (ceilBottom r) (ceilTop row) = true
  else exists r, In r (t_content t) /\ num_eqb (ceilTop r) (ceilBottom row) = true.

Definition Rejected (t : Table) : Prop :=
  List.length (t_content t) = 1
  \/ exists i row, nth_error (t_content t) i = Some row /\ ~ HasNeighbour t i row.

Definition attach (t : Table) (page : Page) : Page :=
  mkPage (p_elements page ++ [ETable t]) (p_box page).

(** ** Deduplication in the words of the specification *)

(** No word id found in a cell of the page is the id of a top-level
    word of the page. *)
Definition Deduplicated (page : Page) : Prop :=
  forall w, In (EWord w) (p_elements page) -> ~ In (w_id w) (cellWordsIds page).

Definition nonWords (page : Page) : list Element :=
  filter (fun e => negb (isWord e)) (p_elements page).

(** ** Payloads the stage digests *)






(** ** Sample inputs *)

Module Sample.

Local Open Scope string_scope.
Local Open Scope Q_scope.

Definition box (l t w h : Q) : BoundingBox := mkBox (Fin l) (Fin t) (Fin w) (Fin h).

Definition rawCell (x y w h : Q) (colSpan rowSpan : option nat) : option RawCell :=
  Some (mkRawCell (x, y) (w, h) colSpan rowSpan).

(** A page of height 100 carrying one word and one drawing. *)
Definition word1 : Word := mkWord 1 "a" (box 1 1 5 5).
Definition page1 : Page := mkPage [EWord word1; EOther 1] (box 0 0 100 100).
Definition doc1 : Document := mkDoc [page1] "in.pdf".

(** A runtime in which the input file is a PDF and the only text that
    parses is the one named by [payloadOf]. *)
Definition runtimeWith (payloadOf : string -> res (list PageData)) : Runtime :=
  mkRuntime (fun _ => Ok true) (fun _ => Ok (Some "pdf")) payloadOf.

Definition noJson : string -> res (list PageData) := fun _ => Throw SyntaxError.

(** A detector that always fails, and one that always prints [out]. *)
Definition failingDetector : DetectTables := fun _ _ _ _ _ => inr "camelot: error".
Definition printingDetector (out : string) : DetectTables := fun _ _ _ _ _ => inl out.

Definition lattice : Options := mkOptions (Some []) (Some "lattice") None.
Definition stream : Options := mkOptions (Some []) (Some "stream") None.

(** A ruled 2 x 2 table in the top-left corner of the page: columns
    [0,10] and [10,20], rows [0,10] and [10,20] in page space. *)
Definition tableA : TableData :=
  mkTableData (0, 100) (20, 20)
    [(0, 10); (10, 20)] [(100, 90); (90, 80)]
    [[rawCell 0 100 10 10 None None; rawCell 10 100 10 10 None None];
     [rawCell 0 90 10 10 None None; rawCell 10 90 10 10 None None]]
    None "lattice".

(** A detection of one row and three columns. *)
Definition table1x3 : TableData :=
  mkTableData (0, 100) (30, 10)
    [(0, 10); (10, 20); (20, 30)] [(100, 90)]
    [[rawCell 0 100 10 10 None None; rawCell 10 100 10 10 None None;
      rawCell 20 100 10 10 None None]]
    None "lattice".

Definition reconstructed1x3 : Table :=
  Eval vm_compute in
    match reconstructTable table1x3 page1 with
    | Ok t => t
    | Throw _ => mkTable [] (box 0 0 0 0)
    end.

(** Three columns, two rows: the cell at (0,0) spans two rows, the cell
    at (1,0) spans two columns; the raw rows leave the spanned slots
    out. *)
Definition tableSpan : TableData :=
  mkTableData (0, 100) (30, 20)
    [(0, 10); (10, 20); (20, 30)] [(100, 90); (90, 80)]
    [[rawCell 0 100 10 20 None (Some 2%nat); rawCell 10 100 20 10 (Some 2%nat) None];
     [rawCell 10 90 10 10 None None; rawCell 20 90 10 10 None None]]
    None "lattice".

Definition rowsSpan : list TableRow :=
  Eval vm_compute in
    match createRows tableSpan page1 with
    | Ok rows => rows
    | Throw _ => []
    end.

(** Two columns, two rows; the raw entry at (1,0) is [null] and no cell
    spans that position. *)
Definition tableHole : TableData :=
  mkTableData (0, 100) (20, 20)
    [(0, 10); (10, 20)] [(100, 90); (90, 80)]
    [[rawCell 0 100 10 10 None None; None];
     [rawCell 0 90 10 10 None None; rawCell 10 90 10 10 None None]]
    None "lattice".

(** Two columns, two rows; the cell at (1,0) spans two rows and the cell
    at (0,1) spans two columns, so both claim the position (1,1). *)
Definition tableClash : TableData :=
  mkTableData (0, 100) (20, 20)
    [(0, 10); (10, 20)] [(100, 90); (90, 80)]
    [[rawCell 0 100 10 10 None None; rawCell 10 100 10 20 None (Some 2%nat)];
     [rawCell 0 90 20 10 (Some 2%nat) None; None]]
    None "lattice".



(** The example in the comment of [getMergeCandidateCellPositions]: a
    stream table whose first row was cut in two by the detector. *)
Definition pageS : Page :=
  mkPage [EWord (mkWord 1 "this" (box 1 1 2 8));
          EWord (mkWord 5 "is" (box 3 1 2 8));
          EWord (mkWord 6 "only" (box 5 1 2 8));
          EWord (mkWord 7 "one" (box 7 1 2 8));
          EWord (mkWord 2 "cell" (box 11 1 8 8));
          EWord (mkWord 3 "foo" (box 1 11 8 8));
          EWord (mkWord 4 "bar" (box 11 11 8 8))]
         (box 0 0 100 100).

Definition tableS : TableData :=
  mkTableData (0, 100) (20, 20)
    [(0, 10); (10, 20)] [(100, 90); (90, 80)]
    [[rawCell 0 100 10 10 None None; rawCell 10 100 10 10 None None];
     [rawCell 0 90 10 10 None None; rawCell 10 90 10 10 None None]]
    (Some [["this is only one cell"; EmptyString]; ["foo"; "bar"]]) "stream".


(** A runtime that reads the text ["payload"] as [payload]. *)
Definition parsing (payload : list PageData) : string -> res (list PageData) :=
  fun s => if (s =? "payload")%string then Ok payload else Throw SyntaxError.

Definition printer : TableExtractor := defaultExtractor (printingDetector "payload").

(** The sample document after a lattice pass that finds [tableA] on
    page 1. *)
Definition runtimeA : Runtime := runtimeWith (parsing [mkPageData 1 [tableA]]).

Definition docA : Document :=
  Eval vm_compute in
    match main runtimeA printer [lattice] doc1 with
    | Ok d => d
    | Throw _ => doc1
    end.

End Sample.

(** ** What the stage may do to a page *)

(** [page'] is [page] with valid tables appended and some words taken
    away: same box, same other elements in the same order, every
    remaining word a word of [page], in page order. *)
Definition Extends (page page' : Page) : Prop :=
  p_box page' = p_box page
  /\ (exists ts, nonWords page' = nonWords page ++ map ETable ts
                 /\ Forall (fun t => isFalseTable t = false) ts)
  /\ (exists keep, page_words page' = filter keep (page_words page)).

(** ** Shapes of the merge *)

(** The expected-text grid fits the table content: every row of the
    grid that holds a text has its row in the table, with at least as
    many cells as the grid row has texts. *)
Definition gridFits (tableContent : list TableRow) (tableData : list (list string))
  : Prop :=
  forall nRow dataRow,
    nth_error tableData nRow = Some dataRow ->
    dataRow = []
    \/ exists row, nth_error tableContent nRow = Some row
                   /\ List.length dataRow <= List.length (r_content row).

(** [groups] are blocks of adjacent elements of [l], taken from left to
    right without overlap. *)
Inductive Blocks : list nat -> list (list nat) -> Prop :=
| blocks_nil l : Blocks l []
| blocks_skip x l groups : Blocks l groups -> Blocks (x :: l) groups
| blocks_take g l groups :
    g <> [] -> Blocks l groups -> Blocks (g ++ l) (g :: groups).

(** ** Tables without spans *)

(** The cells of a raw row that nothing spans: its non-null entries, in
    order, cut at the number of columns. *)
Definition plainCells (pageHeight : number) (pageWords : list Word)
           (ncols : nat) (row : list (option RawCell)) : list Cell :=
  map (tableCellOf pageHeight pageWords) (cat_options (firstn ncols row)).

(** ** More sample inputs *)

Module Demo.

Local Open Scope string_scope.
Local Open Scope Q_scope.

(** A descriptor without any cell row. *)
Definition tableEmpty : TableData :=
  mkTableData (0, 100) (20, 20) [(0, 10); (10, 20)] [] [] None "lattice".

(** Two columns, two rows; the first raw row holds nothing but nulls. *)
Definition tableGap : TableData :=
  mkTableData (0, 100) (20, 20)
    [(0, 10); (10, 20)] [(100, 90); (90, 80)]
    [[None; None];
     [Sample.rawCell 0 90 10 10 None None; Sample.rawCell 10 90 10 10 None None]]
    None "lattice".

Definition rowsGap : list TableRow :=
  Eval vm_compute in
    match createRows tableGap Sample.page1 with
    | Ok rows => rows
    | Throw _ => []
    end.

(** The table attached to the sample document by the lattice pass. *)
Definition tableOfDocA : Table :=
  Eval vm_compute in
    match doc_tables Sample.docA with
    | t :: _ => t
    | [] => mkTable [] (Sample.box 0 0 0 0)
    end.

(** The rows of the stream sample before and after the merge. *)
Definition gridS : list (list string) :=
  [["this is only one cell"; EmptyString]; ["foo"; "bar"]].

Definition rowsS : list TableRow :=
  Eval vm_compute in
    match createRows Sample.tableS Sample.pageS with
    | Ok rows => rows
    | Throw _ => []
    end.

Definition joinedS : list TableRow :=
  Eval vm_compute in
    match joinCellsByContent rowsS gridS with
    | Ok rows => rows
    | Throw _ => []
    end.

(** The sample table with a single boundary pair for its two rows. *)
Definition tableShort : TableData :=
  mkTableData (0, 100) (30, 20)
    [(0, 10); (10, 20); (20, 30)] [(100, 90)]
    (td_cells Sample.tableSpan) None "lattice".

(** A page with one word in the corner and one further to the right,
    the document after a lattice pass that finds the sample table, and a
    second table around the word that is left. *)
Definition wordFar : Word := mkWord 5 "b" (Sample.box 41 1 5 5).
Definition pageTwo : Page :=
  mkPage [EWord Sample.word1; EWord wordFar] (Sample.box 0 0 100 100).
Definition docTwo : Document := mkDoc [pageTwo] "in.pdf".

Definition docTwoA : Document :=
  Eval vm_compute in
    match main Sample.runtimeA Sample.printer [Sample.lattice] docTwo with
    | Ok d => d
    | Throw _ => docTwo
    end.

Definition pageTwoA : Page :=
  Eval vm_compute in
    match d_pages docTwoA with
    | page :: _ => page
    | [] => pageTwo
    end.

Definition tableFar : TableData :=
  mkTableData (40, 100) (20, 20)
    [(40, 50); (50, 60)] [(100, 90); (90, 80)]
    [[Sample.rawCell 40 100 10 10 None None; Sample.rawCell 50 100 10 10 None None];
     [Sample.rawCell 40 90 10 10 None None; Sample.rawCell 50 90 10 10 None None]]
    None "lattice".

Definition rowsFar : list TableRow :=
  Eval vm_compute in
    match createRows tableFar pageTwoA with
    | Ok rows => rows
    | Throw _ => []
    end.

(** One row of two cells side by side, [0.2, 0.5] and [0.5, 0.9]. *)
Definition tableTenths : TableData :=
  mkTableData (2 # 10, 100) (7 # 10, 10)
    [(2 # 10, 5 # 10); (5 # 10, 9 # 10)] [(100, 90)]
    [[Sample.rawCell (2 # 10) 100 (3 # 10) 10 None None;
      Sample.rawCell (5 # 10) 100 (4 # 10) 10 None None]]
    None "lattice".

(** Two rows of one cell, half a unit high, fifty units apart: the rows
    [0.2, 0.7] and [50.2, 50.7] of the page. *)
Definition tableApart : TableData :=
  mkTableData (0, 998 # 10) (10, 51)
    [(0, 10)] [(998 # 10, 993 # 10); (498 # 10, 493 # 10)]
    [[Sample.rawCell 0 (998 # 10) 10 (5 # 10) None None];
     [Sample.rawCell 0 (498 # 10) 10 (5 # 10) None None]]
    None "lattice".

(** A cell that reaches beyond the greatest double, above a row of
    nulls. *)
Definition tableHuge : TableData :=
  mkTableData (0, 100) (10, 10)
    [(0, 10)] [(100, 90); (90, 80)]
    [[Sample.rawCell 0 (- (17 * inject_Z (10 ^ 307))) 10 (17 * inject_Z (10 ^ 307))
                     None None];
     [None]]
    None "lattice".

(** Two rows that meet at 63 on paper: the first at y = 64.1, 27.1
    high, the second at y = 37 on a page of height 100. *)
Definition tableRounded : TableData :=
  mkTableData (0, 641 # 10) (10, 371 # 10)
    [(0, 10)] [(641 # 10, 37); (37, 27)]
    [[Sample.rawCell 0 (641 # 10) 10 (271 # 10) None None];
     [Sample.rawCell 0 37 10 10 None None]]
    None "lattice".

(** The grid of the sample table with spans. *)
Definition gridSpan : Grid :=
  Eval vm_compute in
    match createGrid_from (Fin 100) (page_words Sample.page1)
                          (td_cols Sample.tableSpan) (td_rows Sample.tableSpan) 0
                          (td_cells Sample.tableSpan) [] with
    | Ok G => G
    | Throw _ => []
    end.

End Demo.

(** * Properties *)

(** ** Generic facts on the result monad *)

Lemma bind_Ok_inv {A B : Type} (m : res A) (f : A -> res B) (b : B) :
  bind m f = Ok b -> exists a, m = Ok a /\ f a = Ok b.
Proof.
  destruct m as [a | e]; simpl; intros H.
  - exists a; split; [reflexivity | exact H].
  - discriminate H.
Qed.

Lemma foldM_app {A B : Type} (f : A -> B -> res A) (xs ys : list B) (a : A) :
  foldM f a (xs ++ ys) = bind (foldM f a xs) (fun a' => foldM f a' ys).
Proof.
  revert a; induction xs as [| x xs IH]; intros a; simpl.
  - reflexivity.
  - destruct (f a x) as [a' | e]; simpl; [apply IH | reflexivity].
Qed.

Lemma foldM_invariant {A B : Type} (P : A -> Prop) (f : A -> B -> res A) :
  (forall a x a', P a -> f a x = Ok a' -> P a') ->
  forall xs a a', P a -> foldM f a xs = Ok a' -> P a'.
Proof.
  intros Hstep xs; induction xs as [| x xs IH]; simpl; intros a a' Ha H.
  - injection H as <-; exact Ha.
  - apply bind_Ok_inv in H as (a1 & H1 & H2).
    eapply IH; [eapply Hstep; eassumption | exact H2].
Qed.

Ltac inv_bind H :=
  let a := fresh "a" in
  let H1 := fresh H "_l" in
  apply bind_Ok_inv in H as (a & H1 & H).

(** ** Writing at an index *)

Lemma nth_error_set_nth_eq {A : Type} (xs : list A) i x y :
  nth_error xs i = Some y -> nth_error (set_nth i x xs) i = Some x.
Proof.
  revert i; induction xs as [| z xs IH]; intros [| i]; simpl; try discriminate.
  - reflexivity.
  - apply IH.
Qed.

Lemma nth_error_set_nth_neq {A : Type} (xs : list A) i j x :
  j <> i -> nth_error (set_nth i x xs) j = nth_error xs j.
Proof.
  revert i j; induction xs as [| z xs IH]; intros [| i] [| j] Hij; simpl;
    try reflexivity; try congruence.
  apply IH; congruence.
Qed.


Lemma set_nth_length {A : Type} (xs : list A) i x :
  List.length (set_nth i x xs) = List.length xs.
Proof.
  revert i; induction xs as [| z xs IH]; intros [| i]; simpl; try reflexivity.
  f_equal; apply IH.
Qed.

(** ** The input file of a document is never rewritten *)

Lemma addTableAt_inputFile p doc td doc' :
  addTableAt p doc td = Ok doc' -> d_inputFile doc' = d_inputFile doc.
Proof.
  unfold addTableAt; destruct (pageAt doc p) as [pg |]; [| discriminate].
  intros H; inv_bind H; injection H as <-; reflexivity.
Qed.

Lemma addTables_inputFile tablesData doc doc' :
  addTables tablesData doc = Ok doc' -> d_inputFile doc' = d_inputFile doc.
Proof.
  unfold addTables.
  apply (foldM_invariant (fun d => d_inputFile d = d_inputFile doc)); [| reflexivity].
  intros d pd d' Hd.
  apply (foldM_invariant (fun d => d_inputFile d = d_inputFile doc)); [| exact Hd].
  intros d1 td d2 Hd1 H; rewrite <- Hd1; eapply addTableAt_inputFile; eassumption.
Qed.

Lemma runPass_inputFile rt ex doc config doc' :
  runPass rt ex doc config = Ok doc' -> d_inputFile doc' = d_inputFile doc.
Proof.
  unfold runPass; intros H; inv_bind H.
  destruct (status a =? 0)%Z.
  - inv_bind H; inv_bind H; injection H as <-; simpl.
    eapply addTables_inputFile; eassumption.
  - injection H as <-; reflexivity.
Qed.

Lemma runPasses_inputFile rt ex configs doc doc' :
  foldM (runPass rt ex) doc configs = Ok doc' -> d_inputFile doc' = d_inputFile doc.
Proof.
  apply (foldM_invariant (fun d => d_inputFile d = d_inputFile doc)); [| reflexivity].
  intros d c d' Hd H; rewrite <- Hd; eapply runPass_inputFile; eassumption.
Qed.

(** ** Numbers: rounding, order, least and greatest *)

(** Rounding at work: 0.1 + 0.2 is 0.30000000000000004, and on a page
    of height 100 a cell at y = 64.1 of height 27.1 ends at
    63.00000000000001, which rounds up to 64. *)
Example rounding_at_work :
  num_add (js (1 # 10)) (js (2 # 10)) = Fin (1351079888211149 # 4503599627370496)
  /\ num_eqb (num_add (js (1 # 10)) (js (2 # 10))) (js (3 # 10)) = false
  /\ num_add (num_sub (Fin 100) (js (641 # 10))) (js (271 # 10))
     = Fin (8866461766385665 # 140737488355328)
  /\ Math_ceil (num_add (num_sub (Fin 100) (js (641 # 10))) (js (271 # 10))) = Fin 64
  /\ num_add (Fin (inject_Z (2 ^ 1023))) (Fin (inject_Z (2 ^ 1023))) = PInf.
Proof. split; [| split; [| split; [| split]]]; vm_compute; reflexivity. Qed.

Lemma binary64_not_NaN q : binary64 q <> NaN.
Proof.
  unfold binary64; destruct (0 ?= q)%Q; [discriminate | |];
    destruct (Qle_bool _ _); discriminate.
Qed.

Lemma fl_not_NaN a : a <> NaN -> fl a <> NaN.
Proof. destruct a; simpl; auto using binary64_not_NaN. Qed.

Lemma num_ltb_Fin p q : num_ltb (Fin p) (Fin q) = true <-> (p < q)%Q.
Proof.
  simpl; rewrite negb_true_iff; split.
  - intros H; apply Qnot_le_lt; intros Hle; apply Qle_bool_iff in Hle; congruence.
  - intros H; destruct (Qle_bool q p) eqn:E; [| reflexivity].
    apply Qle_bool_iff in E; lra.
Qed.

Lemma num_leb_Fin p q : num_leb (Fin p) (Fin q) = true <-> (p <= q)%Q.
Proof.
  unfold num_leb; rewrite orb_true_iff, num_ltb_Fin; simpl; rewrite Qeq_bool_iff.
  split; [intros [H | H]; lra |].
  intros H; destruct (Qlt_le_dec p q); [left; assumption | right; lra].
Qed.

Lemma num_leb_refl a : a <> NaN -> num_leb a a = true.
Proof.
  destruct a as [p | | |]; intros H; try reflexivity; [| congruence].
  apply num_leb_Fin; lra.
Qed.

Lemma num_leb_trans a b c :
  num_leb a b = true -> num_leb b c = true -> num_leb a c = true.
Proof.
  destruct a as [p | | |], b as [q | | |], c as [r | | |]; intros H1 H2;
    try reflexivity; try discriminate H1; try discriminate H2.
  apply num_leb_Fin in H1, H2; apply num_leb_Fin; lra.
Qed.

Lemma Math_min2_Fin a b :
  exists m, Math_min2 (Fin a) (Fin b) = Fin m /\ (m <= a /\ m <= b)%Q.
Proof.
  unfold Math_min2; destruct (num_ltb (Fin b) (Fin a)) eqn:E.
  - apply num_ltb_Fin in E; exists b; split; [reflexivity | lra].
  - exists a; split; [reflexivity |].
    destruct (Qlt_le_dec b a) as [H | H]; [apply num_ltb_Fin in H; congruence | lra].
Qed.

Lemma Math_max2_Fin a b :
  exists m, Math_max2 (Fin a) (Fin b) = Fin m /\ (a <= m /\ b <= m)%Q.
Proof.
  unfold Math_max2; destruct (num_ltb (Fin a) (Fin b)) eqn:E.
  - apply num_ltb_Fin in E; exists b; split; [reflexivity | lra].
  - exists a; split; [reflexivity |].
    destruct (Qlt_le_dec a b) as [H | H]; [apply num_ltb_Fin in H; congruence | lra].
Qed.

(** The lesser of two numbers, none of them [NaN], is one of them and
    no greater than either. *)
Lemma Math_min2_le a b :
  a <> NaN -> b <> NaN ->
  Math_min2 a b <> NaN
  /\ num_leb (Math_min2 a b) a = true /\ num_leb (Math_min2 a b) b = true.
Proof.
  destruct a as [p | | |], b as [q | | |]; intros Ha Hb; try congruence;
    try (split; [| split]; [discriminate | reflexivity | reflexivity]).
  - destruct (Math_min2_Fin p q) as (m & -> & H1 & H2).
    split; [| split]; [discriminate | apply num_leb_Fin; exact H1 | apply num_leb_Fin; exact H2].
  - split; [| split]; [discriminate | |]; first [reflexivity | apply num_leb_refl; discriminate].
  - split; [| split]; [discriminate | |]; first [reflexivity | apply num_leb_refl; discriminate].
Qed.

Lemma Math_max2_ge a b :
  a <> NaN -> b <> NaN ->
  Math_max2 a b <> NaN
  /\ num_leb a (Math_max2 a b) = true /\ num_leb b (Math_max2 a b) = true.
Proof.
  destruct a as [p | | |], b as [q | | |]; intros Ha Hb; try congruence;
    try (split; [| split]; [discriminate | reflexivity | reflexivity]).
  - destruct (Math_max2_Fin p q) as (m & -> & H1 & H2).
    split; [| split]; [discriminate | apply num_leb_Fin; exact H1 | apply num_leb_Fin; exact H2].
  - split; [| split]; [discriminate | |]; first [reflexivity | apply num_leb_refl; discriminate].
  - split; [| split]; [discriminate | |]; first [reflexivity | apply num_leb_refl; discriminate].
Qed.

Lemma fold_min_le xs : forall a,
  a <> NaN -> ~ In NaN xs ->
  fold_left Math_min2 xs a <> NaN
  /\ num_leb (fold_left Math_min2 xs a) a = true
  /\ forall x, In x xs -> num_leb (fold_left Math_min2 xs a) x = true.
Proof.
  induction xs as [| y xs IH]; cbn [fold_left]; intros a Ha Hxs.
  - split; [| split]; [exact Ha | apply num_leb_refl, Ha | intros x []].
  - assert (Hy : y <> NaN) by (intros ->; apply Hxs; left; reflexivity).
    destruct (Math_min2_le a y Ha Hy) as (Hm & H1 & H2).
    destruct (IH (Math_min2 a y) Hm) as (Hn & Hle & Hall);
      [intros H; apply Hxs; right; exact H |].
    split; [| split]; [exact Hn | eapply num_leb_trans; eassumption |].
    intros x [<- | Hx]; [eapply num_leb_trans; eassumption | apply Hall, Hx].
Qed.

Lemma fold_max_ge xs : forall a,
  a <> NaN -> ~ In NaN xs ->
  fold_left Math_max2 xs a <> NaN
  /\ num_leb a (fold_left Math_max2 xs a) = true
  /\ forall x, In x xs -> num_leb x (fold_left Math_max2 xs a) = true.
Proof.
  induction xs as [| y xs IH]; cbn [fold_left]; intros a Ha Hxs.
  - split; [| split]; [exact Ha | apply num_leb_refl, Ha | intros x []].
  - assert (Hy : y <> NaN) by (intros ->; apply Hxs; left; reflexivity).
    destruct (Math_max2_ge a y Ha Hy) as (Hm & H1 & H2).
    destruct (IH (Math_max2 a y) Hm) as (Hn & Hle & Hall);
      [intros H; apply Hxs; right; exact H |].
    split; [| split]; [exact Hn | eapply num_leb_trans; eassumption |].
    intros x [<- | Hx]; [eapply num_leb_trans; eassumption | apply Hall, Hx].
Qed.

(** [Math.min] of numbers none of which is [NaN] is no greater than any
    of them, [Math.max] no less. *)
Lemma Math_min_le xs x :
  ~ In NaN xs -> In x xs -> num_leb (Math_min xs) x = true.
Proof.
  intros Hxs Hx; unfold Math_min.
  destruct (fold_min_le xs PInf) as (_ & _ & H); [discriminate | exact Hxs |].
  apply H, Hx.
Qed.

Lemma Math_max_ge xs x :
  ~ In NaN xs -> In x xs -> num_leb x (Math_max xs) = true.
Proof.
  intros Hxs Hx; unfold Math_max.
  destruct (fold_max_ge xs NInf) as (_ & _ & H); [discriminate | exact Hxs |].
  apply H, Hx.
Qed.

(** The edges of finite boxes are numbers: a right or bottom edge may
    overflow, but is never [NaN]. *)
Lemma finite_edges bs :
  Forall finiteBox bs ->
  ~ In NaN (map b_left bs) /\ ~ In NaN (map b_top bs)
  /\ ~ In NaN (map b_right bs) /\ ~ In NaN (map b_bottom bs).
Proof.
  intros Hfin; rewrite Forall_forall in Hfin.
  split; [| split; [| split]]; intros H; apply in_map_iff in H as (b & Hb & Hin);
    destruct (Hfin b Hin) as (l & t & w & h & ->); revert Hb;
    unfold b_right, b_bottom, num_add; simpl;
    try discriminate; apply binary64_not_NaN.
Qed.

(** The row box starts at the least left and the least top of the cell
    boxes; the greatest right, from which its width is taken, is no less
    than the right of any cell box, and the least bottom, from which its
    height is taken, no greater than the bottom of any. *)
Lemma rowBox_bounds tableCells b :
  Forall finiteBox (boxesOf tableCells) -> In b (boxesOf tableCells) ->
  num_leb (b_left (rowBox tableCells)) (b_left b) = true
  /\ num_leb (b_top (rowBox tableCells)) (b_top b) = true
  /\ num_leb (b_right b) (Math_max (map b_right (boxesOf tableCells))) = true
  /\ num_leb (Math_min (map b_bottom (boxesOf tableCells))) (b_bottom b) = true.
Proof.
  intros Hfin Hin.
  destruct (finite_edges _ Hfin) as (Hl & Ht & Hr & Hb).
  unfold rowBox; cbn [b_left b_top].
  split; [| split; [| split]];
    [apply Math_min_le | apply Math_min_le | apply Math_max_ge | apply Math_min_le];
    try assumption; apply in_map, Hin.
Qed.

(** ** Grid coverage (C1) *)

Lemma find_app {A : Type} (f : A -> bool) (l l' : list A) :
  find f (l ++ l') = match find f l with Some x => Some x | None => find f l' end.
Proof.
  induction l as [| a l IH]; simpl; [reflexivity |].
  destruct (f a); [reflexivity | exact IH].
Qed.

Lemma find_none_intro {A : Type} (f : A -> bool) (l : list A) :
  (forall x, In x l -> f x = false) -> find f l = None.
Proof.
  induction l as [| a l IH]; simpl; intros H; [reflexivity |].
  rewrite (H a (or_introl eq_refl)); apply IH; intros x Hx; apply H; right; exact Hx.
Qed.

Lemma In_spannedBy cell colIndex rowIndex sc :
  In sc (spannedBy cell colIndex rowIndex) <->
  exists dx dy,
    dx < spanOr1 (rc_colSpan cell) /\ dy < spanOr1 (rc_rowSpan cell)
    /\ (dx <> 0 \/ dy <> 0)
    /\ sc = mkSpanned (dx + colIndex) (dy + rowIndex) (spanDirection dx).
Proof.
  unfold spannedBy; rewrite in_flat_map; split.
  - intros (x & Hx & H); apply in_flat_map in H as (y & Hy & H).
    apply in_seq in Hx, Hy.
    destruct (negb (x =? 0) || negb (y =? 0)) eqn:E; [| destruct H].
    destruct H as [<- | []].
    exists x, y; repeat split; try lia.
    apply orb_true_iff in E as [E | E]; apply negb_true_iff, Nat.eqb_neq in E; auto.
  - intros (dx & dy & Hx & Hy & Hne & ->).
    exists dx; split; [apply in_seq; lia |].
    apply in_flat_map; exists dy; split; [apply in_seq; lia |].
    assert (E : negb (dx =? 0) || negb (dy =? 0) = true).
    { apply orb_true_iff; destruct Hne as [H | H]; [left | right];
        apply negb_true_iff, Nat.eqb_neq; exact H. }
    rewrite E; left; reflexivity.
Qed.

(** A cell never registers its own column, nor a column before it, in
    its own row. *)
Lemma findSpanned_app_spannedBy sp cell colIndex rowIndex col :
  col <= colIndex ->
  findSpanned (sp ++ spannedBy cell colIndex rowIndex) col rowIndex
  = findSpanned sp col rowIndex.
Proof.
  intros Hle; unfold findSpanned; rewrite find_app.
  destruct (find _ sp); [reflexivity |].
  apply find_none_intro; intros sc Hsc.
  apply In_spannedBy in Hsc as (dx & dy & _ & _ & Hne & ->); simpl.
  apply andb_false_iff.
  destruct (Nat.eq_dec dy 0) as [-> | Hy].
  - left; apply Nat.eqb_neq; lia.
  - right; apply Nat.eqb_neq; lia.
Qed.

Lemma rawAt_splice_null row colIndex col :
  col < colIndex -> rawAt (splice_null row colIndex) col = rawAt row col.
Proof.
  unfold rawAt, splice_null; revert colIndex col; induction row as [| a row IH];
    intros colIndex col H.
  - rewrite firstn_nil, skipn_nil; simpl.
    destruct col as [| [| col]]; reflexivity.
  - destruct colIndex as [| colIndex]; [lia |].
    destruct col as [| col]; simpl; [reflexivity |].
    apply IH; lia.
Qed.

Section RowFacts.

Variable rowIndex : nat.
Variable pageHeight : number.
Variable pageWords : list Word.
Variable cols : list (Q * Q).
Variable rows : list (Q * Q).

Local Abbreviation step := (columnStep rowIndex pageHeight pageWords cols rows).
Local Abbreviation slotsFrom := (columnSlots rowIndex pageHeight pageWords cols rows).
Local Abbreviation loopFrom := (columnLoop rowIndex pageHeight pageWords cols rows).
Local Abbreviation Slot := (SlotAt rowIndex pageHeight pageWords cols rows).
Local Abbreviation Frame := (Framed rowIndex).

Lemma Framed_refl c st : Frame c st st.
Proof. split; reflexivity. Qed.

Lemma Framed_trans c c' st1 st2 st3 :
  c <= c' -> Frame c st1 st2 -> Frame c' st2 st3 -> Frame c st1 st3.
Proof.
  intros Hle [A1 B1] [A2 B2]; split; intros col Hcol.
  - rewrite A2 by lia; apply A1, Hcol.
  - rewrite B2 by lia; apply B1, Hcol.
Qed.

Lemma columnStep_spec c st pushed st' :
  step c st = Ok (pushed, st') -> Frame c st st' /\ Slot st' c pushed.
Proof.
  unfold columnStep, Framed.
  destruct (findSpanned (rs_spannedCells st) c rowIndex) as [sc |] eqn:Hsc.
  - destruct (nth_error rows rowIndex) as [ry |] eqn:Hry; [| discriminate].
    intros [= <- <-]; simpl; split; [split |].
    + reflexivity.
    + intros col Hcol; destruct (_ <? _); [apply rawAt_splice_null, Hcol | reflexivity].
    + econstructor; [exact Hsc | exact Hry].
  - destruct (nth_error (rs_row st) c) as [[cell |] |] eqn:Hcell.
    + intros [= <- <-]; simpl; split; [split |].
      * intros col Hcol; apply findSpanned_app_spannedBy, Hcol.
      * reflexivity.
      * constructor; simpl; [| unfold rawAt; rewrite Hcell; reflexivity].
        rewrite findSpanned_app_spannedBy by lia; exact Hsc.
    + intros [= <- <-]; split; [split; reflexivity |].
      constructor; [exact Hsc | unfold rawAt; rewrite Hcell; reflexivity].
    + intros [= <- <-]; split; [split; reflexivity |].
      constructor; [exact Hsc | unfold rawAt; rewrite Hcell; reflexivity].
Qed.

Lemma Slot_framed c c' st st' slot :
  c < c' -> Frame c' st st' -> Slot st c slot -> Slot st' c slot.
Proof.
  intros Hlt [Hsp Hrow] H; destruct H as [sc ry H1 H2 | raw H1 H2 | H1 H2].
  - econstructor; [rewrite Hsp by lia; exact H1 | exact H2].
  - constructor; [rewrite Hsp by lia; exact H1 | rewrite Hrow by lia; exact H2].
  - constructor; [rewrite Hsp by lia; exact H1 | rewrite Hrow by lia; exact H2].
Qed.

Lemma columnSlots_spec n : forall c st slots st',
  slotsFrom n c st = Ok (slots, st') ->
  List.length slots = n
  /\ Frame c st st'
  /\ forall k, k < n -> Slot st' (c + k) (nth k slots None).
Proof.
  induction n as [| n IH]; simpl; intros c st slots st' H.
  - injection H as <- <-; repeat split; intros k Hk; lia.
  - inv_bind H; destruct a as [pushed st1].
    inv_bind H; destruct a as [slots1 st2]; injection H as <- <-.
    apply columnStep_spec in H_l as [Hfr Hslot].
    apply IH in H_l0 as (Hlen & Hfr2 & Hslots).
    split; [simpl; f_equal; exact Hlen |].
    split; [eapply Framed_trans with (c' := S c); eauto |].
    intros [| k] Hk; simpl.
    + rewrite Nat.add_0_r; eapply Slot_framed with (c' := S c); eauto.
    + replace (c + S k) with (S c + k) by lia; apply Hslots; lia.
Qed.

(** The cells of a row are its slots, empty ones skipped. *)
Lemma columnLoop_slots n : forall c st cells,
  loopFrom n c st cells
  = let* '(slots, st') := slotsFrom n c st in Ok (cells ++ cat_options slots, st').
Proof.
  induction n as [| n IH]; simpl; intros c st cells.
  - rewrite app_nil_r; reflexivity.
  - destruct (step c st) as [[pushed st1] | e]; simpl; [| reflexivity].
    rewrite IH.
    destruct (slotsFrom n (S c) st1) as [[slots st2] | e]; simpl; [| reflexivity].
    destruct pushed; simpl; [rewrite <- app_assoc |]; reflexivity.
Qed.

Lemma cat_options_length {A : Type} (l : list (option A)) :
  List.length (cat_options l) <= List.length l.
Proof.
  induction l as [| [a |] l IH]; simpl; lia.
Qed.

Lemma cat_options_full {A : Type} (l : list (option A)) :
  List.length (cat_options l) = List.length l <-> ~ In None l.
Proof.
  induction l as [| [a |] l IH]; simpl.
  - tauto.
  - split.
    + intros H [E | Hin]; [discriminate |]. apply IH; [lia | exact Hin].
    + intros H; f_equal; apply IH; tauto.
  - pose proof (cat_options_length l); split; [lia | tauto].
Qed.

Lemma createRowCells_slots row spannedCells cells st' :
  createRowCells rowIndex pageHeight pageWords cols rows row spannedCells
  = Ok (cells, st') ->
  exists slots,
    slotsFrom (List.length cols) 0 (mkRowState row spannedCells) = Ok (slots, st')
    /\ cells = cat_options slots
    /\ List.length slots = List.length cols
    /\ forall col, col < List.length cols -> Slot st' col (nth col slots None).
Proof.
  unfold createRowCells; rewrite columnLoop_slots; intros H.
  inv_bind H; destruct a as [slots st1]; injection H as <- <-.
  exists slots; split; [exact H_l |]; split; [reflexivity |].
  apply columnSlots_spec in H_l as (Hlen & _ & Hslots).
  split; [exact Hlen | exact Hslots].
Qed.

End RowFacts.

(** Each raw row gives one reconstructed row, built by [createRowCells]
    at its index. *)
Lemma createRows_from_rows pageHeight pageWords cols rows cells :
  forall rowIndex spannedCells trs,
    createRows_from pageHeight pageWords cols rows rowIndex cells spannedCells = Ok trs ->
    List.length trs = List.length cells
    /\ forall i tr,
        nth_error trs i = Some tr ->
        exists raw sp st,
          nth_error cells i = Some raw
          /\ createRowCells (rowIndex + i) pageHeight pageWords cols rows raw sp
             = Ok (r_content tr, st).
Proof.
  induction cells as [| raw cells IH]; simpl; intros rowIndex sp trs H.
  - injection H as <-; split; [reflexivity |].
    intros [| i] tr; discriminate.
  - inv_bind H; destruct a as [tableCells st].
    inv_bind H; injection H as <-.
    apply IH in H_l0 as [Hlen Hrows].
    split; [simpl; f_equal; exact Hlen |].
    intros [| i] tr; simpl.
    + intros [= <-]; exists raw, sp, st; rewrite Nat.add_0_r; auto.
    + intros Htr; destruct (Hrows i tr Htr) as (raw' & sp' & st' & H1 & H2).
      exists raw', sp', st'; split; [exact H1 |].
      replace (rowIndex + S i) with (S rowIndex + i) by lia; exact H2.
Qed.

(** ** The grid, position by position *)

Lemma nth_error_splice_null_after row c j :
  c < j -> nth_error (splice_null row c) j = nth_error row (j - 1).
Proof.
  intros Hlt; unfold splice_null.
  destruct (Nat.le_gt_cases c (List.length row)) as [Hle | Hgt].
  - rewrite nth_error_app2 by (rewrite length_firstn; lia).
    rewrite length_firstn, Nat.min_l by exact Hle.
    destruct (j - c) as [| k] eqn:E; [lia |]; simpl.
    rewrite nth_error_skipn; f_equal; lia.
  - rewrite firstn_all2, skipn_all2 by lia.
    rewrite (proj2 (nth_error_None row (j - 1))) by lia.
    apply nth_error_None; rewrite length_app; simpl; lia.
Qed.

Lemma length_splice_null row c : List.length (splice_null row c) = S (List.length row).
Proof.
  unfold splice_null; rewrite length_app; simpl.
  rewrite length_firstn, length_skipn; lia.
Qed.

Lemma spannedBy_spannedOver cell colIndex rowIndex :
  spannedBy cell colIndex rowIndex
  = spannedOver (rc_colSpan cell) (rc_rowSpan cell) colIndex rowIndex.
Proof. reflexivity. Qed.

Lemma spannedColumnsBefore_S registered col row :
  spannedColumnsBefore registered (S col) row
  = spannedColumnsBefore registered col row
    ++ (if isSome (findSpanned registered col row) then [col] else []).
Proof.
  unfold spannedColumnsBefore; rewrite seq_S, filter_app; simpl.
  destruct (isSome _); reflexivity.
Qed.

(** The spanned columns before [col] are told by the lookups before
    [col]. *)
Lemma spannedColumnsBefore_ext registered registered' col row :
  (forall c, c < col -> findSpanned registered' c row = findSpanned registered c row) ->
  spannedColumnsBefore registered' col row = spannedColumnsBefore registered col row.
Proof.
  intros H; unfold spannedColumnsBefore; apply filter_ext_in.
  intros c Hc; apply in_seq in Hc; rewrite H by lia; reflexivity.
Qed.

Lemma slotOf_ext pageHeight pageWords cols rows registered registered' raw col row :
  (forall c, c <= col -> findSpanned registered' c row = findSpanned registered c row) ->
  slotOf pageHeight pageWords cols rows registered' raw col row
  = slotOf pageHeight pageWords cols rows registered raw col row.
Proof.
  intros H; unfold slotOf, paddedAt, nullsBefore.
  rewrite (H col (Nat.le_refl _)).
  rewrite (spannedColumnsBefore_ext registered registered') by (intros; apply H; lia).
  reflexivity.
Qed.

Lemma registeredBy_spanned pageHeight col ry direction c r :
  registeredBy (Some (spannedCellAt pageHeight col ry direction)) c r = [].
Proof. destruct col; reflexivity. Qed.

Section RowPadding.

Variable rowIndex : nat.
Variable pageHeight : number.
Variable pageWords : list Word.
Variable cols : list (Q * Q).
Variable rows : list (Q * Q).
Variable raw : list (option RawCell).

Local Abbreviation nulls sp c :=
  (nullsBefore sp (List.length cols) (List.length raw) c rowIndex).
Local Abbreviation PaddedAt := (Padded rowIndex cols raw).

Lemma Padded_start sp : PaddedAt 0 (mkRowState raw sp).
Proof.
  unfold Padded, nullsBefore, spannedColumnsBefore; simpl.
  split; [lia |]. intros j _; rewrite Nat.sub_0_r; reflexivity.
Qed.

Lemma columnStep_padded c st pushed st' :
  columnStep rowIndex pageHeight pageWords cols rows c st = Ok (pushed, st') ->
  PaddedAt c st ->
  PaddedAt (S c) st'
  /\ pushed = slotOf pageHeight pageWords cols rows (rs_spannedCells st) raw c rowIndex
  /\ (findSpanned (rs_spannedCells st) c rowIndex <> None -> rowIndex < List.length rows)
  /\ rs_spannedCells st' = rs_spannedCells st ++ registeredBy pushed c rowIndex
  /\ (forall col, col <= c ->
        findSpanned (rs_spannedCells st') col rowIndex
        = findSpanned (rs_spannedCells st) col rowIndex).
Proof.
  unfold columnStep, slotOf, paddedAt; intros H [Hlen Hnth].
  assert (HS : nulls (rs_spannedCells st) (S c)
               = Nat.min (List.length (spannedColumnsBefore (rs_spannedCells st) c rowIndex)
                          + (if isSome (findSpanned (rs_spannedCells st) c rowIndex)
                             then 1 else 0))
                         (List.length cols - List.length raw)).
  { unfold nullsBefore; rewrite spannedColumnsBefore_S, length_app.
    destruct (isSome _); reflexivity. }
  destruct (findSpanned (rs_spannedCells st) c rowIndex) as [sc |] eqn:Hsc.
  - destruct (nth_error rows rowIndex) as [ry |] eqn:Hry; [| discriminate].
    injection H as <- <-; cbn [rs_row rs_spannedCells isSome] in *.
    split; [| split; [| split; [| split]]].
    + unfold Padded; cbn [rs_row rs_spannedCells]; rewrite HS.
      unfold nullsBefore in Hlen, Hnth.
      destruct (Nat.ltb_spec (List.length (rs_row st)) (List.length cols)) as [Hshort | Hfull].
      * rewrite length_splice_null; split; [lia |].
        intros j Hj; rewrite nth_error_splice_null_after by lia.
        rewrite Hnth by lia; f_equal; lia.
      * split; [lia |].
        intros j Hj; rewrite Hnth by lia; f_equal; lia.
    + rewrite (nth_error_nth _ _ (0, 0)%Q Hry); reflexivity.
    + intros _; apply nth_error_Some; rewrite Hry; discriminate.
    + rewrite registeredBy_spanned, app_nil_r; reflexivity.
    + reflexivity.
  - assert (Hraw : rawAt (rs_row st) c
                   = rawAt raw (c - nulls (rs_spannedCells st) c))
      by (unfold rawAt; rewrite Hnth by lia; reflexivity).
    assert (Hkeep : forall sp', (forall col, col <= c ->
                       findSpanned sp' col rowIndex
                       = findSpanned (rs_spannedCells st) col rowIndex) ->
                    PaddedAt (S c) (mkRowState (rs_row st) sp')).
    { intros sp' Hsame; unfold Padded; cbn [rs_row rs_spannedCells].
      assert (E : nulls sp' (S c) = nulls (rs_spannedCells st) c).
      { unfold nullsBefore.
        rewrite (spannedColumnsBefore_ext (rs_spannedCells st) sp')
          by (intros; apply Hsame; lia).
        rewrite spannedColumnsBefore_S, Hsc; cbn [isSome]; rewrite app_nil_r; reflexivity. }
      rewrite E; split; [exact Hlen |].
      intros j Hj; apply Hnth; lia. }
    rewrite <- Hraw; unfold rawAt.
    destruct (nth_error (rs_row st) c) as [[cell |] |] eqn:Hcell;
      injection H as <- <-; cbn [rs_row rs_spannedCells option_map registeredBy].
    + assert (Hsame : forall col, col <= c ->
                findSpanned (rs_spannedCells st ++ spannedBy cell c rowIndex) col rowIndex
                = findSpanned (rs_spannedCells st) col rowIndex)
        by (intros col Hcol; apply findSpanned_app_spannedBy, Hcol).
      split; [apply Hkeep, Hsame |].
      split; [reflexivity |].
      split; [congruence |].
      split; [reflexivity | exact Hsame].
    + split; [destruct st; apply Hkeep; reflexivity |].
      split; [reflexivity |].
      split; [congruence |].
      split; [rewrite app_nil_r; reflexivity | reflexivity].
    + split; [destruct st; apply Hkeep; reflexivity |].
      split; [reflexivity |].
      split; [congruence |].
      split; [rewrite app_nil_r; reflexivity | reflexivity].
Qed.

End RowPadding.

Lemma registrationsOfRow_cons c r slot slots :
  registrationsOfRow c r (slot :: slots)
  = registeredBy slot c r ++ registrationsOfRow (S c) r slots.
Proof. reflexivity. Qed.

Lemma registrationsFrom_cons r slots G :
  registrationsFrom r (slots :: G)
  = registrationsOfRow 0 r slots ++ registrationsFrom (S r) G.
Proof. reflexivity. Qed.

Section RowGrid.

Variable rowIndex : nat.
Variable pageHeight : number.
Variable pageWords : list Word.
Variable cols : list (Q * Q).
Variable rows : list (Q * Q).
Variable raw : list (option RawCell).

Lemma columnSlots_padded n : forall c st slots st',
  columnSlots rowIndex pageHeight pageWords cols rows n c st = Ok (slots, st') ->
  Padded rowIndex cols raw c st ->
  List.length slots = n
  /\ rs_spannedCells st' = rs_spannedCells st ++ registrationsOfRow c rowIndex slots
  /\ (forall col, col <= c ->
        findSpanned (rs_spannedCells st') col rowIndex
        = findSpanned (rs_spannedCells st) col rowIndex)
  /\ forall k, k < n ->
       nth k slots None
       = slotOf pageHeight pageWords cols rows (rs_spannedCells st') raw (c + k) rowIndex
       /\ (findSpanned (rs_spannedCells st') (c + k) rowIndex <> None ->
           rowIndex < List.length rows).
Proof.
  induction n as [| n IH]; simpl; intros c st slots st' H Hpad.
  - injection H as <- <-; split; [reflexivity |].
    split; [rewrite app_nil_r; reflexivity |].
    split; [reflexivity | intros k Hk; lia].
  - inv_bind H; destruct a as [pushed st1].
    inv_bind H; destruct a as [slots1 st2]; injection H as <- <-.
    destruct (columnStep_padded _ _ _ _ _ _ _ _ _ _ H_l Hpad)
      as (Hpad1 & Hpushed & Hrow & Hsp1 & Hsame1).
    destruct (IH _ _ _ _ H_l0 Hpad1) as (Hlen & Hsp2 & Hsame2 & Hslots).
    assert (Hsame : forall col, col <= c ->
              findSpanned (rs_spannedCells st2) col rowIndex
              = findSpanned (rs_spannedCells st) col rowIndex)
      by (intros col Hcol; rewrite Hsame2 by lia; apply Hsame1, Hcol).
    split; [simpl; f_equal; exact Hlen |].
    split; [rewrite registrationsOfRow_cons, Hsp2, Hsp1, app_assoc; reflexivity |].
    split; [exact Hsame |].
    intros [| k] Hk; cbn [nth].
    + rewrite Nat.add_0_r, Hsame by lia.
      split; [| exact Hrow].
      rewrite Hpushed; symmetry; apply slotOf_ext.
      intros col Hcol; apply Hsame, Hcol.
    + replace (c + S k) with (S c + k) by lia; apply Hslots; lia.
Qed.

End RowGrid.

Lemma In_spannedOver colspan rowspan colIndex rowIndex sc :
  In sc (spannedOver colspan rowspan colIndex rowIndex) ->
  colIndex <= sc_x sc /\ rowIndex <= sc_y sc.
Proof.
  change (spannedOver colspan rowspan colIndex rowIndex)
    with (spannedBy (mkRawCell (0, 0)%Q (0, 0)%Q colspan rowspan) colIndex rowIndex).
  intros H; apply In_spannedBy in H as (dx & dy & _ & _ & _ & ->); simpl; lia.
Qed.

(** The cells of the rows from [r0] on register positions in these
    rows only. *)
Lemma registrationsFrom_rows G : forall r0 sc,
  In sc (registrationsFrom r0 G) -> r0 <= sc_y sc.
Proof.
  induction G as [| slots G IH]; intros r0 sc; [intros [] |].
  rewrite registrationsFrom_cons, in_app_iff; intros [H | H].
  - unfold registrationsOfRow in H; apply in_flat_map in H as ([col slot] & _ & H).
    destruct slot as [[b ws cs rs | b d] |]; simpl in H; try destruct H.
    apply In_spannedOver in H; lia.
  - apply IH in H; lia.
Qed.

Lemma findSpanned_app_later sp later col row :
  (forall sc, In sc later -> row < sc_y sc) ->
  findSpanned (sp ++ later) col row = findSpanned sp col row.
Proof.
  intros H; unfold findSpanned; rewrite find_app.
  destruct (find _ sp); [reflexivity |].
  apply find_none_intro; intros sc Hsc; apply andb_false_iff; right.
  apply Nat.eqb_neq; specialize (H sc Hsc); lia.
Qed.

Section TableGrid.

Variable pageHeight : number.
Variable pageWords : list Word.
Variable cols : list (Q * Q).
Variable rows : list (Q * Q).

(** The grid satisfies its equation: every slot is what [slotOf] tells
    from the registrations of the whole grid. *)
Lemma createGrid_from_spec cells : forall r sp G,
  createGrid_from pageHeight pageWords cols rows r cells sp = Ok G ->
  List.length G = List.length cells
  /\ forall i raw,
      nth_error cells i = Some raw ->
      List.length (nth i G []) = List.length cols
      /\ forall col, col < List.length cols ->
           nth col (nth i G []) None
           = slotOf pageHeight pageWords cols rows (sp ++ registrationsFrom r G)
                    raw col (r + i)
           /\ (findSpanned (sp ++ registrationsFrom r G) col (r + i) <> None ->
               r + i < List.length rows).
Proof.
  induction cells as [| raw0 cells IH]; simpl; intros r sp G H.
  - injection H as <-; split; [reflexivity |]. intros [| i] raw; discriminate.
  - inv_bind H; destruct a as [slots st].
    inv_bind H; rename a into G'; injection H as <-.
    destruct (columnSlots_padded _ _ _ _ _ _ _ _ _ _ _ H_l (Padded_start _ _ _ _))
      as (Hlen & Hsp & _ & Hslots).
    cbn [rs_spannedCells] in Hsp.
    destruct (IH _ _ _ H_l0) as [HlenG Hrest].
    split; [simpl; f_equal; exact HlenG |].
    rewrite registrationsFrom_cons, app_assoc, <- Hsp.
    intros [| i] raw; cbn [nth_error nth].
    + intros [= <-]; split; [exact Hlen |].
      intros col Hcol; rewrite Nat.add_0_r.
      assert (Hlater : forall c,
                findSpanned (rs_spannedCells st ++ registrationsFrom (S r) G') c r
                = findSpanned (rs_spannedCells st) c r).
      { intros c; apply findSpanned_app_later.
        intros sc Hsc; apply registrationsFrom_rows in Hsc; lia. }
      rewrite Hlater.
      rewrite (slotOf_ext _ _ _ _ (rs_spannedCells st)) by (intros; apply Hlater).
      exact (Hslots col Hcol).
    + intros Hraw; replace (r + S i) with (S r + i) by lia.
      exact (Hrest i raw Hraw).
Qed.

Lemma createRows_from_grid cells : forall r sp trs,
  createRows_from pageHeight pageWords cols rows r cells sp = Ok trs ->
  exists G,
    createGrid_from pageHeight pageWords cols rows r cells sp = Ok G
    /\ map r_content trs = map cat_options G.
Proof.
  induction cells as [| raw cells IH]; simpl; intros r sp trs H.
  - injection H as <-; exists []; split; reflexivity.
  - unfold createRowCells in H; rewrite columnLoop_slots in H.
    inv_bind H; destruct a as [tableCells st].
    inv_bind H_l; destruct a as [slots st1]; injection H_l as <- <-.
    inv_bind H; injection H as <-.
    destruct (IH _ _ _ H_l) as (G & HG & Hmap).
    exists (slots :: G); rewrite H_l_l; cbn [bind]; rewrite HG; cbn [bind].
    split; [reflexivity | simpl; f_equal; exact Hmap].
Qed.

End TableGrid.


(** ** The grid equation has one solution *)

Lemma registrationsOfRow_app c r slots1 slots2 :
  registrationsOfRow c r (slots1 ++ slots2)
  = registrationsOfRow c r slots1
    ++ registrationsOfRow (c + List.length slots1) r slots2.
Proof.
  revert c; induction slots1 as [| s slots1 IH]; intros c; simpl.
  - rewrite Nat.add_0_r; reflexivity.
  - rewrite !registrationsOfRow_cons, IH, <- app_assoc.
    replace (S c + List.length slots1) with (c + S (List.length slots1)) by lia.
    reflexivity.
Qed.

Lemma registrationsFrom_app r G1 G2 :
  registrationsFrom r (G1 ++ G2)
  = registrationsFrom r G1 ++ registrationsFrom (r + List.length G1) G2.
Proof.
  revert r; induction G1 as [| s G1 IH]; intros r; simpl.
  - rewrite Nat.add_0_r; reflexivity.
  - rewrite !registrationsFrom_cons, IH, <- app_assoc.
    replace (S r + List.length G1) with (r + S (List.length G1)) by lia.
    reflexivity.
Qed.

(** The cells from column [c0] on register, in their own row, columns
    beyond [c0] only. *)
Lemma registrationsOfRow_columns slots : forall c0 r sc,
  In sc (registrationsOfRow c0 r slots) -> sc_y sc = r -> c0 < sc_x sc.
Proof.
  induction slots as [| slot slots IH]; intros c0 r sc; [intros [] |].
  rewrite registrationsOfRow_cons, in_app_iff; intros [H | H] Hy.
  - destruct slot as [[b ws cs rs | b d] |]; simpl in H; try destruct H.
    change (spannedOver cs rs c0 r)
      with (spannedBy (mkRawCell (0, 0)%Q (0, 0)%Q cs rs) c0 r) in H.
    apply In_spannedBy in H as (dx & dy & _ & _ & Hne & ->); simpl in *.
    destruct Hne; lia.
  - specialize (IH _ _ _ H Hy); lia.
Qed.

Lemma findSpanned_app_none sp other col row :
  (forall sc, In sc other -> sc_x sc = col -> sc_y sc = row -> False) ->
  findSpanned (sp ++ other) col row = findSpanned sp col row.
Proof.
  intros H; unfold findSpanned; rewrite find_app.
  destruct (find _ sp); [reflexivity |].
  apply find_none_intro; intros sc Hsc.
  destruct (Nat.eqb_spec (sc_x sc) col), (Nat.eqb_spec (sc_y sc) row);
    try reflexivity.
  exfalso; eauto.
Qed.

(** The lookup of [(col, row)] is told by the rows before [row] and the
    slots before [col] in row [row]. *)
Lemma registered_local (G : Grid) col row :
  findSpanned (registrations G) col row
  = findSpanned (registrationsFrom 0 (firstn row G)
                 ++ registrationsOfRow 0 row (firstn col (nth row G [])))
                col row.
Proof.
  unfold registrations.
  rewrite <- (firstn_skipn row G) at 1; rewrite registrationsFrom_app.
  destruct (skipn row G) as [| slots rest] eqn:E.
  - assert (Hnil : nth row G [] = []).
    { apply nth_overflow.
      apply (f_equal (@List.length _)) in E; rewrite length_skipn in E; simpl in E; lia. }
    rewrite Hnil, firstn_nil; reflexivity.
  - assert (Hrow : nth row G [] = slots).
    { rewrite <- (firstn_skipn row G), E.
      assert (Hl : List.length (firstn row G) = row).
      { rewrite length_firstn.
        apply (f_equal (@List.length _)) in E; rewrite length_skipn in E; simpl in E; lia. }
      rewrite app_nth2 by lia; rewrite Hl, Nat.sub_diag; reflexivity. }
    assert (Hl : 0 + List.length (firstn row G) = row).
    { simpl; rewrite length_firstn.
      apply (f_equal (@List.length _)) in E; rewrite length_skipn in E; simpl in E; lia. }
    rewrite Hl, registrationsFrom_cons, Hrow.
    rewrite <- (firstn_skipn col slots) at 1.
    rewrite registrationsOfRow_app, !app_assoc.
    rewrite findSpanned_app_later
      by (intros sc Hsc; apply registrationsFrom_rows in Hsc; lia).
    apply findSpanned_app_none.
    intros sc Hsc Hx Hy.
    destruct (Nat.le_gt_cases col (List.length slots)) as [Hle | Hgt].
    + apply registrationsOfRow_columns in Hsc; [| exact Hy].
      rewrite length_firstn, Nat.min_l in Hsc by exact Hle; simpl in Hsc; lia.
    + rewrite skipn_all2 in Hsc by lia; destruct Hsc.
Qed.

Lemma firstn_S_nth {A : Type} (l : list A) n d :
  n < List.length l -> firstn (S n) l = firstn n l ++ [nth n l d].
Proof.
  revert n; induction l as [| a l IH]; intros [| n] H; simpl in *; try lia.
  - reflexivity.
  - f_equal; apply IH; lia.
Qed.

Lemma GridOf_unique pageHeight pageWords cols rows cells G G' :
  GridOf pageHeight pageWords cols rows cells G ->
  GridOf pageHeight pageWords cols rows cells G' ->
  G = G'.
Proof.
  intros [Hlen Heq] [Hlen' Heq'].
  assert (Hrows : forall n, n <= List.length cells -> firstn n G = firstn n G').
  { induction n as [| n IHn]; intros Hn; [reflexivity |].
    specialize (IHn ltac:(lia)).
    destruct (nth_error cells n) as [raw |] eqn:Hraw;
      [| apply nth_error_None in Hraw; lia].
    destruct (Heq n raw Hraw) as [Hl Hs], (Heq' n raw Hraw) as [Hl' Hs'].
    assert (Hcols : forall c, c <= List.length cols ->
              firstn c (nth n G []) = firstn c (nth n G' [])).
    { induction c as [| c IHc]; intros Hc; [reflexivity |].
      specialize (IHc ltac:(lia)).
      rewrite (firstn_S_nth (nth n G []) c None), (firstn_S_nth (nth n G' []) c None)
        by lia.
      rewrite IHc; f_equal; f_equal.
      change (gridAt G c n = gridAt G' c n).
      rewrite (Hs c ltac:(lia)), (Hs' c ltac:(lia)).
      apply slotOf_ext; intros c1 Hc1.
      rewrite (registered_local G' c1 n), (registered_local G c1 n), IHn.
      replace (firstn c1 (nth n G' [])) with (firstn c1 (nth n G []));
        [reflexivity |].
      rewrite <- (Nat.min_l c1 c), <- !firstn_firstn by lia.
      rewrite IHc; reflexivity. }
    rewrite (firstn_S_nth G n []), (firstn_S_nth G' n []) by lia.
    rewrite IHn; f_equal; f_equal.
    rewrite <- (firstn_all (nth n G [])), <- (firstn_all (nth n G' [])), Hl, Hl'.
    apply Hcols; lia. }
  rewrite <- (firstn_all G), <- (firstn_all G'), Hlen, Hlen'.
  apply Hrows; lia.
Qed.

(** C1, as the code has it: each raw row gives one reconstructed row,
    whose cells are the slots of the row's columns in column order,
    empty slots left out.  The slots make up the one grid that solves
    the grid equation: the slot at (col,row) holds a SpannedTableCell
    when the position was registered as spanned by a cell standing
    earlier in the grid (then the row has a boundary pair); otherwise
    the TableCell of the raw cell that the padded raw row holds at col,
    that is the entry of the raw row at col less the nulls padded
    before col - one for each spanned column before col, until the row
    is as long as the column list; and nothing when that entry is null
    or missing.  So no position is filled twice, a row has at most as
    many cells as there are columns, and a position is left empty
    exactly when it is not spanned and its raw entry is null or
    missing. *)
Theorem C1_grid_positions tableData page trs :
  createRows tableData page = Ok trs ->
  exists G : Grid,
    GridOf (b_height (p_box page)) (page_words page)
           (td_cols tableData) (td_rows tableData) (td_cells tableData) G
    /\ (forall G',
           GridOf (b_height (p_box page)) (page_words page)
                  (td_cols tableData) (td_rows tableData) (td_cells tableData) G' ->
           G' = G)
    /\ map r_content trs = map cat_options G
    /\ List.length trs = List.length (td_cells tableData)
    /\ (forall row raw col,
           nth_error (td_cells tableData) row = Some raw ->
           col < List.length (td_cols tableData) ->
           (findSpanned (registrations G) col row <> None ->
            row < List.length (td_rows tableData))
           /\ (gridAt G col row = None
               <-> findSpanned (registrations G) col row = None
                   /\ paddedAt (registrations G) (List.length (td_cols tableData))
                               raw col row = None))
    /\ (forall row tr,
           nth_error trs row = Some tr ->
           List.length (r_content tr) <= List.length (td_cols tableData)
           /\ (List.length (r_content tr) = List.length (td_cols tableData)
               <-> ~ In None (nth row G []))).
Proof.
  unfold createRows; intros H.
  destruct (createRows_from_grid _ _ _ _ _ _ _ _ H) as (G & HG & Hmap).
  destruct (createGrid_from_spec _ _ _ _ _ _ _ _ HG) as [Hlen Hslots].
  assert (Hgrid : GridOf (b_height (p_box page)) (page_words page)
                         (td_cols tableData) (td_rows tableData) (td_cells tableData) G).
  { split; [exact Hlen |].
    intros row raw Hraw; destruct (Hslots row raw Hraw) as [Hl Hs].
    split; [exact Hl |].
    intros col Hcol; exact (proj1 (Hs col Hcol)). }
  exists G; split; [exact Hgrid |].
  split; [intros G' HG'; eapply GridOf_unique; eassumption |].
  split; [exact Hmap |].
  split; [rewrite <- Hlen, <- (length_map r_content), Hmap, length_map; reflexivity |].
  split.
  - intros row raw col Hraw Hcol.
    destruct (Hslots row raw Hraw) as [_ Hs]; destruct (Hs col Hcol) as [Hslot Hrow].
    unfold gridAt, registrations; simpl in Hslot, Hrow.
    split; [exact Hrow |].
    rewrite Hslot; unfold slotOf.
    destruct (findSpanned (registrationsFrom 0 G) col row); cbn.
    + split; [discriminate | intros [E _]; discriminate E].
    + destruct (paddedAt _ _ _ _ _); cbn; split; try tauto; try discriminate.
      intros [_ E]; discriminate E.
  - intros row tr Htr.
    assert (Hrow : r_content tr = cat_options (nth row G [])).
    { pose proof (map_nth_error r_content _ _ Htr) as Hc.
      rewrite Hmap, nth_error_map in Hc.
      destruct (nth_error G row) as [slots |] eqn:E; [| discriminate Hc].
      injection Hc as Hc; rewrite (nth_error_nth _ _ [] E); symmetry; exact Hc. }
    assert (Hl : List.length (nth row G []) = List.length (td_cols tableData)).
    { destruct (nth_error (td_cells tableData) row) as [raw |] eqn:E.
      - apply (Hslots row raw E).
      - apply nth_error_None in E.
        assert (Hsome : nth_error trs row <> None) by congruence.
        apply nth_error_Some in Hsome.
        rewrite <- (length_map r_content), Hmap, length_map in Hsome; lia. }
    rewrite Hrow, <- Hl; split; [apply cat_options_length | apply cat_options_full].
Qed.

(** The sample table with spans: two raw rows of two entries for three
    columns give two rows of three cells, the slots of the one grid
    that solves the equation; the slot at (2,0) holds a cell spanned
    from the left, the slot at (0,1) a cell spanned from the top, and
    the second raw row, padded at column 0, gives the cells at columns
    1 and 2. *)
Lemma C1_grid_positions_witness :
  List.length Sample.rowsSpan = 2
  /\ map r_content Sample.rowsSpan = map cat_options Demo.gridSpan
  /\ (exists b, gridAt Demo.gridSpan 2 0 = Some (SpannedTableCell b DLeft))
  /\ (exists b, gridAt Demo.gridSpan 0 1 = Some (SpannedTableCell b DTop))
  /\ paddedAt (registrations Demo.gridSpan) 3 (nth 1 (td_cells Sample.tableSpan) []) 1 1
     = nth 0 (nth 1 (td_cells Sample.tableSpan) []) None.
Proof.
  destruct (C1_grid_positions Sample.tableSpan Sample.page1 Sample.rowsSpan eq_refl)
    as (G & _ & Hone & Hmap & Hlen & _).
  assert (Hgrid : GridOf (b_height (p_box Sample.page1)) (page_words Sample.page1)
                         (td_cols Sample.tableSpan) (td_rows Sample.tableSpan)
                         (td_cells Sample.tableSpan) Demo.gridSpan).
  { split; [reflexivity |].
    intros [| [| row]] raw Hraw; simpl in Hraw; try (destruct row; discriminate Hraw);
      injection Hraw as <-; (split; [reflexivity |]);
      intros [| [| [| col]]] Hcol; try (simpl in Hcol; lia); vm_compute; reflexivity. }
  rewrite <- (Hone _ Hgrid) in Hmap.
  split; [exact Hlen |].
  split; [exact Hmap |].
  split; [eexists; reflexivity |].
  split; [eexists; reflexivity |].
  vm_compute; reflexivity.
Defined.

(** C1 fails as stated: the raw entry at (1,0) of the sample table is
    null and nothing spans it; the first reconstructed row has one cell
    for two columns, and the grid position (1,0) holds neither kind of
    cell. *)
Lemma C1_null_entry_leaves_gap :
  exists trs tr cell,
    createRows Sample.tableHole Sample.page1 = Ok trs
    /\ nth_error trs 0 = Some tr
    /\ List.length (td_cols Sample.tableHole) = 2
    /\ r_content tr = [cell].
Proof.
  eexists; eexists; eexists.
  split; [vm_compute; reflexivity |].
  split; [reflexivity |].
  split; reflexivity.
Qed.

(** ** Spanned positions (C8) *)

(** The first registration of a position decides its direction; a cell
    that registers a position nobody registered before decides it. *)
Lemma findSpanned_registered sp cell colIndex rowIndex more dx dy :
  dx < spanOr1 (rc_colSpan cell) -> dy < spanOr1 (rc_rowSpan cell) ->
  dx <> 0 \/ dy <> 0 ->
  findSpanned sp (colIndex + dx) (rowIndex + dy) = None ->
  exists sc,
    findSpanned ((sp ++ spannedBy cell colIndex rowIndex) ++ more)
                (colIndex + dx) (rowIndex + dy) = Some sc
    /\ sc_direction sc = spanDirection dx.
Proof.
  intros Hx Hy Hne Hnone; unfold findSpanned in *.
  rewrite !find_app, Hnone.
  destruct (find _ (spannedBy cell colIndex rowIndex)) as [sc |] eqn:Hfind.
  - exists sc; split; [reflexivity |].
    apply find_some in Hfind as [Hin Hpos].
    apply In_spannedBy in Hin as (x & y & _ & _ & _ & ->); simpl in *.
    apply andb_true_iff in Hpos as [Hpx _]; apply Nat.eqb_eq in Hpx.
    replace x with dx by lia; reflexivity.
  - exfalso.
    pose proof (find_none _ _ Hfind
                  (mkSpanned (dx + colIndex) (dy + rowIndex) (spanDirection dx))) as Hf.
    simpl in Hf.
    rewrite (Nat.add_comm dx), (Nat.add_comm dy), !Nat.eqb_refl in Hf.
    discriminate Hf.
    apply In_spannedBy; exists dx, dy; rewrite (Nat.add_comm colIndex), (Nat.add_comm rowIndex); auto.
Qed.

(** C8, as the code has it: a raw cell met at (col,row), with colSpan c
    and rowSpan r defaulting to 1, becomes a TableCell and registers
    every position (col+dx,row+dy), 0 <= dx < c, 0 <= dy < r, (dx,dy) <>
    (0,0), tagged 'left' if dx > 0 and 'top' otherwise.  Where nobody
    registered that position before, every later visit of it pushes a
    SpannedTableCell with that direction.  The two examples: colSpan=2
    at (1,0) gives a SpannedTableCell 'left' at (2,0); rowSpan=2 at (0,0)
    gives a SpannedTableCell 'top' at (0,1). *)
Theorem C8_spanned_positions :
  (forall rowIndex pageHeight pageWords cols rows col st cell,
      findSpanned (rs_spannedCells st) col rowIndex = None ->
      nth_error (rs_row st) col = Some (Some cell) ->
      exists st',
        columnStep rowIndex pageHeight pageWords cols rows col st
        = Ok (Some (tableCellOf pageHeight pageWords cell), st')
        /\ forall dx dy,
            dx < spanOr1 (rc_colSpan cell) -> dy < spanOr1 (rc_rowSpan cell) ->
            dx <> 0 \/ dy <> 0 ->
            In (mkSpanned (col + dx) (rowIndex + dy) (spanDirection dx))
               (rs_spannedCells st')
            /\ (findSpanned (rs_spannedCells st) (col + dx) (rowIndex + dy) = None ->
                forall row2 more ry,
                  nth_error rows (rowIndex + dy) = Some ry ->
                  exists st3,
                    columnStep (rowIndex + dy) pageHeight pageWords cols rows (col + dx)
                               (mkRowState row2 (rs_spannedCells st' ++ more))
                    = Ok (Some (spannedCellAt pageHeight (nth (col + dx) cols (0, 0)%Q)
                                              ry (spanDirection dx)),
                          st3)))
  /\ (exists trs tr b,
         createRows Sample.tableSpan Sample.page1 = Ok trs
         /\ nth_error trs 0 = Some tr
         /\ nth_error (r_content tr) 2 = Some (SpannedTableCell b DLeft))
  /\ (exists trs tr b,
         createRows Sample.tableSpan Sample.page1 = Ok trs
         /\ nth_error trs 1 = Some tr
         /\ nth_error (r_content tr) 0 = Some (SpannedTableCell b DTop)).
Proof.
  split; [| split; exists Sample.rowsSpan; eexists; eexists;
              (split; [reflexivity | split; reflexivity])].
  intros rowIndex pageHeight pageWords cols rows col st cell Hfree Hcell.
  eexists; split.
  - unfold columnStep; rewrite Hfree, Hcell; reflexivity.
  - intros dx dy Hx Hy Hne; simpl; split.
    + apply in_or_app; right; apply In_spannedBy.
      exists dx, dy; rewrite (Nat.add_comm col), (Nat.add_comm rowIndex); auto.
    + intros Hnone row2 more ry Hry.
      destruct (findSpanned_registered (rs_spannedCells st) cell col rowIndex more
                  dx dy Hx Hy Hne Hnone) as (sc & Hsc & Hdir).
      unfold columnStep; simpl; rewrite Hsc, Hry, Hdir.
      eexists; reflexivity.
Qed.

(** The cell at (0,0) of the sample table: it spans two rows, so it
    registers (0,1) as spanned from the top. *)
Lemma C8_spanned_positions_witness :
  exists cell st',
    columnStep 0 (Fin 100) [] (td_cols Sample.tableSpan) (td_rows Sample.tableSpan) 0
               (mkRowState (hd [] (td_cells Sample.tableSpan)) [])
    = Ok (Some cell, st')
    /\ In (mkSpanned 0 1 DTop) (rs_spannedCells st').
Proof.
  destruct (proj1 C8_spanned_positions 0 (Fin 100) []
              (td_cols Sample.tableSpan) (td_rows Sample.tableSpan) 0
              (mkRowState (hd [] (td_cells Sample.tableSpan)) [])
              (mkRawCell (0, 100)%Q (10, 20)%Q None (Some 2))
              eq_refl eq_refl)
    as (st' & Hstep & Hreg).
  eexists; exists st'; split; [exact Hstep |].
  apply (Hreg 0 1); simpl; [lia | lia | right; discriminate].
Defined.

(** C8 fails as stated: the position (1,1) is claimed first by the cell
    at (1,0), which spans two rows, then by the cell at (0,1), which
    spans two columns: the cell pushed there is tagged 'top', so the
    offset dx = 1 of the cell at (0,1) gives no SpannedTableCell tagged
    'left'. *)
Lemma C8_first_registration_wins :
  exists trs tr b ws b',
    createRows Sample.tableClash Sample.page1 = Ok trs
    /\ nth_error trs 1 = Some tr
    /\ r_content tr = [TableCell b ws (Some 2) None; SpannedTableCell b' DTop].
Proof.
  do 5 eexists.
  split; [vm_compute; reflexivity |].
  split; reflexivity.
Qed.

(** ** Row boxes (C9) *)

Lemma createRows_from_rowBox pageHeight pageWords cols rows cells :
  forall rowIndex spannedCells trs,
    createRows_from pageHeight pageWords cols rows rowIndex cells spannedCells = Ok trs ->
    Forall (fun row => r_box row = rowBox (r_content row)) trs.
Proof.
  induction cells as [| raw cells IH]; simpl; intros rowIndex spannedCells trs H.
  - injection H as <-; constructor.
  - inv_bind H; destruct a as [tableCells st].
    inv_bind H; injection H as <-.
    constructor; [reflexivity | eapply IH; eassumption].
Qed.

(** C9, as the code has it: the box of a reconstructed row is computed
    over the cells of the row that have a box, with left = least left,
    top = least top, width = greatest right - least left and height =
    least bottom - least top.  Its left edge, top edge and width are
    those of the bounding rectangle of these boxes; its bottom edge is
    the least bottom, so the box is the bounding rectangle when the
    least and the greatest bottom coincide.  On finite boxes it starts
    at or before every cell box to the left and to the top; the
    greatest right, from which the width is taken, is at or beyond the
    right edge of every cell box, and the least bottom, from which the
    height is taken, at or above the bottom of every cell box.  (The
    right edge of the row box itself, left + width, is rounded once
    more and can fall short of the greatest right by a unit in the last
    place.) *)
Theorem C9_row_box tableData page trs row :
  createRows tableData page = Ok trs ->
  In row trs ->
  let bs := boxesOf (r_content row) in
  b_left (r_box row) = Math_min (map b_left bs)
  /\ b_top (r_box row) = Math_min (map b_top bs)
  /\ b_width (r_box row) = num_sub (Math_max (map b_right bs)) (Math_min (map b_left bs))
  /\ b_height (r_box row) = num_sub (Math_min (map b_bottom bs)) (Math_min (map b_top bs))
  /\ b_left (r_box row) = b_left (unionBox bs)
  /\ b_top (r_box row) = b_top (unionBox bs)
  /\ b_width (r_box row) = b_width (unionBox bs)
  /\ (Math_min (map b_bottom bs) = Math_max (map b_bottom bs) ->
      r_box row = unionBox bs)
  /\ (Forall finiteBox bs ->
      forall b, In b bs ->
        num_leb (b_left (r_box row)) (b_left b) = true
        /\ num_leb (b_top (r_box row)) (b_top b) = true
        /\ num_leb (b_right b) (Math_max (map b_right bs)) = true
        /\ num_leb (Math_min (map b_bottom bs)) (b_bottom b) = true).
Proof.
  intros H Hin bs.
  apply createRows_from_rowBox in H.
  rewrite Forall_forall in H; specialize (H row Hin).
  rewrite H; split; [| split; [| split; [| split; [| split; [| split; [| split; [| split]]]]]]];
    try reflexivity.
  - unfold rowBox, unionBox; fold bs; cbn [b_left b_top b_width b_height].
    intros ->; reflexivity.
  - intros Hfin b Hb; apply rowBox_bounds; assumption.
Qed.

Lemma C9_row_box_witness :
  exists row,
    nth_error Sample.rowsSpan 1 = Some row
    /\ r_box row = Sample.box 0 10 30 10
    /\ r_box row = unionBox (boxesOf (r_content row)).
Proof.
  eexists; split; [reflexivity |].
  pose proof (C9_row_box Sample.tableSpan Sample.page1 Sample.rowsSpan _
                eq_refl (or_intror (or_introl eq_refl)))
    as (_ & _ & _ & _ & _ & _ & _ & Hsame & _).
  split; [reflexivity |].
  apply Hsame; reflexivity.
Defined.

(** C9 fails as stated: the first row of the sample table holds a cell
    spanning two rows;
    the row box stops at the least bottom, 10, above the bottom of that
    cell, 20, and is not the bounding rectangle of the row's cells. *)
Lemma C9_row_box_not_bounding :
  exists row cell b,
    createRows Sample.tableSpan Sample.page1 = Ok Sample.rowsSpan
    /\ nth_error Sample.rowsSpan 0 = Some row
    /\ In cell (r_content row)
    /\ c_box cell = Some b
    /\ b_bottom (r_box row) = Fin 10
    /\ b_bottom b = Fin 20
    /\ r_box row <> unionBox (boxesOf (r_content row)).
Proof.
  eexists; eexists; eexists.
  split; [reflexivity |].
  split; [reflexivity |].
  split; [left; reflexivity |].
  split; [reflexivity |].
  split; [reflexivity |].
  split; [reflexivity |].
  vm_compute; discriminate.
Qed.

(** Rounding at the right edge: a row of two cells, [0.2, 0.5] and
    [0.5, 0.9]; the greatest right is 0.9, the width 0.9 - 0.2, and the
    right edge of the row box, 0.2 + (0.9 - 0.2), is
    0.8999999999999999. *)
Example row_box_right_edge_rounded :
  exists row b,
    createRows Demo.tableTenths Sample.page1 = Ok [row]
    /\ In b (boxesOf (r_content row))
    /\ Math_max (map b_right (boxesOf (r_content row))) = js (9 # 10)
    /\ b_right b = js (9 # 10)
    /\ num_ltb (b_right (r_box row)) (b_right b) = true.
Proof.
  do 2 eexists.
  split; [vm_compute; reflexivity |].
  split; [right; left; reflexivity |].
  split; [vm_compute; reflexivity |].
  split; vm_compute; reflexivity.
Qed.

(** ** Words shared by cells (C7) *)




Lemma In_wordsInCellBox cellBounds pageWords w :
  In w (wordsInCellBox cellBounds pageWords)
  <-> In w pageWords /\ overlapsMuch w cellBounds.
Proof. unfold wordsInCellBox, overlapsMuch; apply filter_In. Qed.





(** ** Content-reconciliation merge (C5) *)

Lemma candidatesInRow_spec tableContent nRow row :
  nth_error tableContent nRow = Some row ->
  forall dataRow c0 cands,
    candidatesInRow tableContent nRow dataRow c0 = Ok cands ->
    cands
    = filter (fun col =>
                match nth_error (r_content row) col, nth_error dataRow (col - c0) with
                | Some cell, Some expected =>
                    negb (TableCell_toString cell =? expected)%string
                | _, _ => false
                end)
             (seq c0 (List.length dataRow)).
Proof.
  intros Hrow; induction dataRow as [| cellStr rest IH]; simpl; intros c0 cands H.
  - injection H as <-; reflexivity.
  - rewrite Hrow in H.
    destruct (nth_error (r_content row) c0) as [cell |] eqn:Hcell; [| discriminate].
    inv_bind H; injection H as <-.
    rewrite Nat.sub_diag; simpl nth_error at 1.
    apply IH in H_l.
    assert (E : filter
                  (fun col =>
                     match nth_error (r_content row) col,
                           nth_error (cellStr :: rest) (col - c0) with
                     | Some cell0, Some expected =>
                         negb (TableCell_toString cell0 =? expected)%string
                     | _, _ => false
                     end)
                  (seq (S c0) (List.length rest)) = a).
    { rewrite H_l; apply filter_ext_in; intros col Hcol; apply in_seq in Hcol.
      replace (col - c0) with (S (col - S c0)) by lia; reflexivity. }
    rewrite E; reflexivity.
Qed.

Lemma candidatesInRow_row tableContent nRow dataRow c0 cands :
  candidatesInRow tableContent nRow dataRow c0 = Ok cands ->
  dataRow <> [] ->
  exists row, nth_error tableContent nRow = Some row.
Proof.
  destruct dataRow as [| cellStr rest]; [congruence |]; simpl.
  destruct (nth_error tableContent nRow) as [row |]; [eauto | discriminate].
Qed.

Lemma candidatesInRow_differing tableContent nRow row dataRow cands :
  nth_error tableContent nRow = Some row ->
  candidatesInRow tableContent nRow dataRow 0 = Ok cands ->
  cands = differing row dataRow.
Proof.
  intros Hrow H; rewrite (candidatesInRow_spec _ _ _ Hrow _ _ _ H).
  unfold differing; apply filter_ext; intros col; rewrite Nat.sub_0_r; reflexivity.
Qed.

Lemma candidateRows_spec tableContent tableData : forall n0 m,
  candidateRows tableContent tableData n0 = Ok m ->
  forall nRow cands,
    In (nRow, cands) m <->
    exists i dataRow row,
      nRow = n0 + i
      /\ nth_error tableData i = Some dataRow
      /\ nth_error tableContent nRow = Some row
      /\ cands = differing row dataRow
      /\ cands <> [].
Proof.
  induction tableData as [| dataRow rest IH]; simpl; intros n0 m H nRow cands.
  - injection H as <-; split; [intros [] |].
    intros ([| i] & ? & ? & _ & Hd & _); discriminate.
  - inv_bind H; rename a into cs. inv_bind H; rename a into more.
    injection H as <-.
    specialize (IH _ _ H_l0 nRow cands).
    assert (Hhere : forall row, nth_error tableContent n0 = Some row ->
                                cs = differing row dataRow).
    { intros row Hrow; eapply candidatesInRow_differing; eassumption. }
    assert (Hhead : (nRow, cands) = (n0, cs) /\ cs <> [] <->
                    exists row, nRow = n0 + 0
                                /\ nth_error tableContent nRow = Some row
                                /\ cands = differing row dataRow /\ cands <> []).
    { split.
      - intros [[= -> ->] Hne].
        destruct (candidatesInRow_row _ _ _ _ _ H_l) as [row Hrow].
        { intros ->; simpl in H_l; injection H_l as <-; congruence. }
        exists row; rewrite Nat.add_0_r; repeat split; auto.
      - intros (row & -> & Hrow & -> & Hne); rewrite Nat.add_0_r in *.
        rewrite (Hhere row Hrow); auto. }
    assert (Htail : In (nRow, cands) more <->
                    exists i dataRow0 row,
                      nRow = n0 + S i /\ nth_error rest i = Some dataRow0
                      /\ nth_error tableContent nRow = Some row
                      /\ cands = differing row dataRow0 /\ cands <> []).
    { rewrite IH; split; intros (i & d & row & -> & Hrest);
        exists i, d, row; (split; [lia | exact Hrest]). }
    split.
    + intros Hin.
      assert (Hcase : ((nRow, cands) = (n0, cs) /\ cs <> []) \/ In (nRow, cands) more).
      { destruct cs; [right; exact Hin |].
        destruct Hin as [<- | Hin]; [left; split; [reflexivity | discriminate] | right; exact Hin]. }
      destruct Hcase as [Hc | Hc].
      * apply Hhead in Hc as (row & Hn & Hrest); exists 0, dataRow, row; auto.
      * apply Htail in Hc as (i & d & row & Hn & Hrest); exists (S i), d, row; auto.
    + intros ([| i] & d & row & Hn & Hd & Hrest); simpl in Hd.
      * injection Hd as <-.
        assert (Hc : (nRow, cands) = (n0, cs) /\ cs <> []) by (apply Hhead; eauto).
        destruct Hc as [-> Hne]; destruct cs; [congruence | left; reflexivity].
      * assert (Hc : In (nRow, cands) more) by (apply Htail; eauto 10).
        destruct cs; [exact Hc | right; exact Hc].
Qed.

Lemma getMergeCandidateCellPositions_spec tableContent tableData entries :
  getMergeCandidateCellPositions tableContent tableData = Ok entries ->
  forall nRow groups,
    In (nRow, groups) entries <->
    exists dataRow row,
      nth_error tableData nRow = Some dataRow
      /\ nth_error tableContent nRow = Some row
      /\ groups = candidateGroups (differing row dataRow)
      /\ groups <> [].
Proof.
  unfold getMergeCandidateCellPositions; intros H; inv_bind H; injection H as <-.
  intros nRow groups; rewrite in_flat_map; split.
  - intros ([n cands] & Hin & Hg).
    apply (candidateRows_spec _ _ _ _ H_l) in Hin
      as (i & dataRow & row & -> & Hd & Hrow & -> & _).
    destruct (candidateGroups (differing row dataRow)) eqn:E; [destruct Hg |].
    destruct Hg as [[= <- <-] | []].
    exists dataRow, row; repeat split; auto; discriminate.
  - intros (dataRow & row & Hd & Hrow & -> & Hne).
    exists (nRow, differing row dataRow); split.
    + apply (candidateRows_spec _ _ _ _ H_l); exists nRow, dataRow, row.
      repeat split; auto.
      intros E; rewrite E in Hne; apply Hne; reflexivity.
    + destruct (candidateGroups (differing row dataRow)); [congruence | left; reflexivity].
Qed.

(** [groupConsecutiveNumbersInArray] splits its argument into runs of
    consecutive numbers that cannot be made longer. *)
Lemma groupConsecutive_maximal_runs l :
  List.concat (groupConsecutiveNumbersInArray l) = l
  /\ Forall consecutiveRun (groupConsecutiveNumbersInArray l)
  /\ separatedRuns (groupConsecutiveNumbersInArray l).
Proof.
  induction l as [| x l (Hcat & Hruns & Hsep)]; simpl.
  - repeat split; constructor.
  - destruct (groupConsecutiveNumbersInArray l) as [| [| y g] gs] eqn:E.
    + simpl in *; subst l; repeat split; repeat constructor.
    + inversion Hruns as [| ? ? Hbad _]; inversion Hbad.
    + destruct (Nat.eqb_spec y (S x)) as [Hy | Hy].
      * simpl in *; rewrite <- Hcat; split; [reflexivity |].
        inversion Hruns as [| ? ? Hrun Hrest]; subst.
        split; [constructor; [constructor; [reflexivity | exact Hrun] | exact Hrest] |].
        destruct gs as [| [| z g'] gs']; simpl in *; auto.
      * simpl in *; rewrite <- Hcat; split; [reflexivity |].
        split; [constructor; [constructor | exact Hruns] |].
        split; [intros y' [= <-]; exact Hy | exact Hsep].
Qed.

Lemma nth_error_skipn_cons {A : Type} (l : list A) k c :
  nth_error l k = Some c -> skipn k l = c :: skipn (S k) l.
Proof.
  revert k; induction l as [| a l IH]; intros [| k]; simpl; try discriminate.
  - intros [= ->]; reflexivity.
  - intros H; apply IH, H.
Qed.

Lemma skipn_nil_of_None {A : Type} (l : list A) k :
  nth_error l k = None -> skipn k l = [].
Proof.
  intros H; apply nth_error_None in H; apply skipn_all2, H.
Qed.

Section GreedyFacts.

Variable dataRow : list string.
Variable rowCells : list Cell.

(** The loop over the index [i] of a run is the greedy growth over the
    columns that follow [i]. *)
Lemma subGroupLoop_greedy cellColGroup : forall n i sub groups,
  n = List.length cellColGroup - i -> 0 < n ->
  subGroupLoop dataRow rowCells cellColGroup n i sub groups
  = groups ++ greedy dataRow rowCells (skipn (S i) cellColGroup) sub.
Proof.
  induction n as [| n IH]; intros i sub groups Hn Hpos; [lia |].
  simpl subGroupLoop; rewrite Nat.add_1_r.
  fold (textsAgree dataRow rowCells sub); fold (actualLonger dataRow rowCells sub).
  destruct (nth_error cellColGroup (S i)) as [c |] eqn:Hnext.
  - rewrite (nth_error_skipn_cons _ _ _ Hnext).
    assert (Hlt : S i < List.length cellColGroup)
      by (apply nth_error_Some; rewrite Hnext; discriminate).
    rewrite IH by lia; simpl greedy.
    destruct (textsAgree dataRow rowCells sub); simpl.
    + rewrite orb_true_r, <- app_assoc; reflexivity.
    + destruct (actualLonger dataRow rowCells sub); reflexivity.
  - rewrite (skipn_nil_of_None _ _ Hnext).
    assert (n = 0) by (apply nth_error_None in Hnext; lia); subst n.
    simpl.
    destruct (textsAgree dataRow rowCells sub); simpl; [reflexivity |].
    destruct (actualLonger dataRow rowCells sub); simpl; rewrite app_nil_r; reflexivity.
Qed.

Lemma rowGroupsToMerge_greedy groups :
  rowGroupsToMerge dataRow rowCells groups
  = flat_map (greedyRun dataRow rowCells) groups.
Proof.
  unfold rowGroupsToMerge.
  change (flat_map (greedyRun dataRow rowCells) groups)
    with ([] ++ flat_map (greedyRun dataRow rowCells) groups).
  generalize (@nil (list nat)) as acc.
  induction groups as [| g groups IH]; cbn [fold_left flat_map]; intros acc.
  - rewrite app_nil_r; reflexivity.
  - rewrite IH, app_assoc; f_equal.
    destruct g as [| c rest]; [simpl; rewrite app_nil_r; reflexivity |].
    rewrite (subGroupLoop_greedy (c :: rest) (List.length (c :: rest)) 0
               (firstn 1 (c :: rest)) acc)
      by (simpl; lia).
    reflexivity.
Qed.


End GreedyFacts.





(** Each row has at most one entry, and [joinCellsByContent] rewrites
    exactly the rows that have merge groups. *)
Lemma candidateRows_keys tableContent tableData : forall n0 m,
  candidateRows tableContent tableData n0 = Ok m ->
  NoDup (map fst m) /\ Forall (fun k => n0 <= k) (map fst m).
Proof.
  induction tableData as [| dataRow rest IH]; simpl; intros n0 m H.
  - injection H as <-; split; constructor.
  - inv_bind H; rename a into cs; inv_bind H; rename a into more.
    injection H as <-.
    destruct (IH _ _ H_l0) as [Hnd Hge].
    assert (Hge' : Forall (fun k => n0 <= k) (map fst more)).
    { eapply Forall_impl; [| exact Hge]; simpl; intros k Hk; lia. }
    destruct cs; [split; assumption |].
    split; simpl; constructor; auto.
    intros Hin; rewrite Forall_forall in Hge; specialize (Hge _ Hin); lia.
Qed.

Lemma entries_keys tableContent tableData entries :
  getMergeCandidateCellPositions tableContent tableData = Ok entries ->
  NoDup (map fst entries).
Proof.
  unfold getMergeCandidateCellPositions; intros H; inv_bind H; injection H as <-.
  apply candidateRows_keys in H_l as [Hnd _].
  induction a as [| [n cands] m IH]; simpl; [constructor |].
  simpl in Hnd; apply NoDup_cons_iff in Hnd as [Hfresh Hnd].
  assert (Hsub : forall k, In k (map fst (flat_map
                    (fun '(nRow, cands0) =>
                       match candidateGroups cands0 with
                       | [] => []
                       | groups => [(nRow, groups)]
                       end) m)) -> In k (map fst m)).
  { clear; induction m as [| [n' c'] m IHm]; simpl; [tauto |].
    intros k; rewrite map_app, in_app_iff; intros [Hk | Hk]; [left | right; auto].
    destruct (candidateGroups c'); simpl in Hk; [destruct Hk | tauto]. }
  destruct (candidateGroups cands); simpl; [apply IH, Hnd |].
  constructor; [intros Hin; apply Hfresh, Hsub, Hin | apply IH, Hnd].
Qed.

Lemma fold_joinRow tableData entries : forall tableContent,
  NoDup (map fst entries) ->
  List.length (fold_left (joinRow tableData) entries tableContent)
  = List.length tableContent
  /\ forall nRow row,
      nth_error tableContent nRow = Some row ->
      nth_error (fold_left (joinRow tableData) entries tableContent) nRow
      = Some (rowAfterJoin tableData entries nRow row).
Proof.
  induction entries as [| [k groups] rest IH]; intros tableContent Hnd;
    cbn [fold_left].
  - split; [reflexivity |]. intros nRow row Hrow; exact Hrow.
  - simpl in Hnd; apply NoDup_cons_iff in Hnd as [Hfresh Hnd].
    set (tc1 := joinRow tableData tableContent (k, groups)).
    destruct (IH tc1 Hnd) as [Hlen Hrows].
    assert (Hlen1 : List.length tc1 = List.length tableContent).
    { unfold tc1, joinRow.
      destruct (nth_error tableContent k); [| reflexivity].
      destruct (0 <? _); [apply set_nth_length | reflexivity]. }
    split; [rewrite Hlen; exact Hlen1 |].
    intros nRow row Hrow; unfold rowAfterJoin, groupsOfRow; simpl.
    destruct (Nat.eqb_spec k nRow) as [-> | Hne]; simpl.
    + assert (Hk : nth_error tc1 nRow
                   = Some (match rowGroupsToMerge (nth nRow tableData [])
                                                  (r_content row) groups with
                           | [] => row
                           | _ => mergeCells row
                                    (rowGroupsToMerge (nth nRow tableData [])
                                                      (r_content row) groups)
                           end)).
      { unfold tc1, joinRow; rewrite Hrow.
        destruct (rowGroupsToMerge (nth nRow tableData []) (r_content row) groups);
          simpl; [exact Hrow |].
        eapply nth_error_set_nth_eq; exact Hrow. }
      rewrite (Hrows _ _ Hk); unfold rowAfterJoin, groupsOfRow.
      assert (Hnone : find (fun entry => fst entry =? nRow) rest = None).
      { apply find_none_intro; intros [k' g'] Hin; simpl.
        apply Nat.eqb_neq; intros ->; apply Hfresh.
        apply in_map_iff; exists (nRow, g'); auto. }
      rewrite Hnone; reflexivity.
    + assert (Hk : nth_error tc1 nRow = Some row).
      { unfold tc1, joinRow.
        destruct (nth_error tableContent k); [| exact Hrow].
        destruct (0 <? _); [| exact Hrow].
        rewrite nth_error_set_nth_neq by congruence; exact Hrow. }
      rewrite (Hrows _ _ Hk); reflexivity.
Qed.

Lemma joinCellsByContent_rows tableContent tableData joined :
  joinCellsByContent tableContent tableData = Ok joined ->
  exists entries,
    getMergeCandidateCellPositions tableContent tableData = Ok entries
    /\ List.length joined = List.length tableContent
    /\ forall nRow row,
        nth_error tableContent nRow = Some row ->
        nth_error joined nRow = Some (rowAfterJoin tableData entries nRow row).
Proof.
  unfold joinCellsByContent; intros H; inv_bind H; injection H as <-.
  exists a; split; [exact H_l |].
  apply fold_joinRow; eapply entries_keys; exact H_l.
Qed.



(** The example in the comment of [getMergeCandidateCellPositions], run
    through [addTable]: the two cells of the first row are candidates and
    become one cell holding both words; the second row is left alone. *)
Example stream_table_is_healed :
  exists rows page' t,
    createRows Sample.tableS Sample.pageS = Ok rows
    /\ getMergeCandidateCellPositions
         rows [["this is only one cell"; EmptyString]; ["foo"; "bar"]]%string
       = Ok [(0, [[0; 1]])]
    /\ addTable Sample.tableS Sample.pageS = Ok page'
    /\ page_tables page' = [t]
    /\ map (fun row => map (fun c => map w_text (c_content c)) (r_content row))
           (t_content t)
       = [[["this"; "is"; "only"; "one"; "cell"]]; [["foo"]; ["bar"]]]%string
    /\ map (fun row => map TableCell_toString (r_content row)) (t_content t)
       = [["this is only one cell"]; ["foo"; "bar"]]%string.
Proof.
  do 3 eexists.
  split; [vm_compute; reflexivity |].
  split; [vm_compute; reflexivity |].
  split; [vm_compute; reflexivity |].
  split; [reflexivity |].
  split; reflexivity.
Qed.

(** ** Validity heuristic (C3) *)

Lemma hd_error_filter_None {A : Type} (f : A -> bool) (l : list A) :
  hd_error (filter f l) = None <-> ~ exists r, In r l /\ f r = true.
Proof.
  induction l as [| a l IH]; simpl.
  - split; [intros _ (r & [] & _) | reflexivity].
  - destruct (f a) eqn:Fa; simpl.
    + split; [discriminate |]. intros H; exfalso; apply H; exists a; auto.
    + rewrite IH; split; intros H (r & Hr & Hf); apply H.
      * destruct Hr as [<- | Hr]; [congruence | exists r; auto].
      * exists r; auto.
Qed.

Lemma existAdjacentRow_None t i row :
  nth_error (t_content t) i = Some row ->
  existAdjacentRow i t = None <-> ~ HasNeighbour t i row.
Proof.
  intros Hrow; unfold existAdjacentRow, existPreviousRow, HasNeighbour.
  rewrite Hrow; destruct (i + 1 =? List.length (t_content t));
    apply hd_error_filter_None.
Qed.

Lemma isFalseTable_Rejected t : isFalseTable t = true <-> Rejected t.
Proof.
  unfold isFalseTable, Rejected; rewrite orb_true_iff, Nat.eqb_eq, existsb_exists.
  split; (intros [H | H]; [left; exact H | right]).
  - destruct H as (i & Hi & Hu); apply in_seq in Hi.
    destruct (nth_error (t_content t) i) as [row |] eqn:Hrow.
    + exists i, row; split; [exact Hrow |].
      apply (existAdjacentRow_None _ _ _ Hrow).
      destruct (existAdjacentRow i t); [discriminate | reflexivity].
    + apply nth_error_None in Hrow; lia.
  - destruct H as (i & row & Hrow & Hn).
    exists i; split.
    + apply in_seq; split; [lia |].
      apply nth_error_Some; rewrite Hrow; discriminate.
    + apply (existAdjacentRow_None _ _ _ Hrow) in Hn; rewrite Hn; reflexivity.
Qed.

(** C3, as the code has it: when reconstruction yields the table [t],
    [addTable] appends [t] to the page's elements exactly when the
    validity heuristic accepts it.  [t] is rejected exactly when it has
    exactly one row or some row has no neighbour: for a row that is not
    the last, a row of the table whose rounded-up top equals this row's
    rounded-up bottom; for the last row, a row of the table whose
    rounded-up bottom equals its rounded-up top.  The neighbour is
    looked for among all the rows of the table, the row itself
    included, whether above or below.  A rejected table, a one-row
    table in particular, leaves the page as it was. *)
Theorem C3_attached_iff_accepted tableData page t :
  reconstructTable tableData page = Ok t ->
  (isFalseTable t = true <-> Rejected t)
  /\ (~ Rejected t -> addTable tableData page = Ok (attach t page))
  /\ (Rejected t -> addTable tableData page = Ok page)
  /\ (List.length (t_content t) = 1 -> addTable tableData page = Ok page)
  /\ (forall page', addTable tableData page = Ok page' ->
                    (page' = attach t page <-> ~ Rejected t)).
Proof.
  intros Ht.
  assert (Hno : ~ Rejected t -> addTable tableData page = Ok (attach t page)).
  { intros Hn; unfold addTable; rewrite Ht; simpl.
    destruct (isFalseTable t) eqn:E; [apply isFalseTable_Rejected in E; tauto |].
    reflexivity. }
  assert (Hyes : Rejected t -> addTable tableData page = Ok page).
  { intros Hr; apply isFalseTable_Rejected in Hr.
    unfold addTable; rewrite Ht; simpl; rewrite Hr; reflexivity. }
  split; [apply isFalseTable_Rejected |].
  split; [exact Hno |].
  split; [exact Hyes |].
  split; [intros H1; apply Hyes; left; exact H1 |].
  intros page' Hadd; split.
  - intros -> Hr; rewrite (Hyes Hr) in Hadd.
    injection Hadd as Hadd; apply (f_equal (fun p => List.length (p_elements p))) in Hadd.
    unfold attach in Hadd; simpl in Hadd; rewrite length_app in Hadd; simpl in Hadd; lia.
  - intros Hn; rewrite (Hno Hn) in Hadd; injection Hadd as <-; reflexivity.
Qed.

(** A detection of one row and three columns is reconstructed and then
    dropped: the page keeps its elements. *)
Lemma C3_attached_iff_accepted_witness :
  Rejected Sample.reconstructed1x3
  /\ addTable Sample.table1x3 Sample.page1 = Ok Sample.page1.
Proof.
  pose proof (C3_attached_iff_accepted Sample.table1x3 Sample.page1
                Sample.reconstructed1x3 eq_refl) as (_ & _ & Hrej & H1 & _).
  split.
  - left; reflexivity.
  - apply H1; reflexivity.
Defined.

(** C3 fails as stated: the two rows of the sample table lie fifty
    units apart, [0.2, 0.7] and [50.2, 50.7] on the page.  Neither has
    the other for a neighbour - the rounded-up bottom of the first is
    1, the rounded-up top of the second 51 - but each is its own: top
    and bottom of a row round up to the same integer.  The table is
    attached, though its last row has no row above it whose bottom
    meets its top. *)
Lemma C3_row_is_its_own_neighbour :
  exists t row0 row1,
    reconstructTable Demo.tableApart Sample.page1 = Ok t
    /\ t_content t = [row0; row1]
    /\ ceilTop row0 = Fin 1 /\ ceilBottom row0 = Fin 1
    /\ ceilTop row1 = Fin 51 /\ ceilBottom row1 = Fin 51
    /\ num_eqb (ceilBottom row0) (ceilTop row1) = false
    /\ num_eqb (ceilTop row1) (ceilBottom row0) = false
    /\ ~ Rejected t
    /\ addTable Demo.tableApart Sample.page1 = Ok (attach t Sample.page1).
Proof.
  do 3 eexists.
  split; [vm_compute; reflexivity |].
  split; [reflexivity |].
  split; [vm_compute; reflexivity |].
  split; [vm_compute; reflexivity |].
  split; [vm_compute; reflexivity |].
  split; [vm_compute; reflexivity |].
  split; [vm_compute; reflexivity |].
  split; [vm_compute; reflexivity |].
  split; [| vm_compute; reflexivity].
  intros Hrej; apply isFalseTable_Rejected in Hrej.
  vm_compute in Hrej; discriminate Hrej.
Qed.

(** Rounding decides: the first row of the sample table ends at
    100 - 64.1 + 27.1, which is 63.00000000000001 and rounds up to 64;
    the second row starts at 63.  The rows do not meet and the table is
    dropped. *)
Example rounding_decides_adjacency :
  exists row0 row1,
    createRows Demo.tableRounded Sample.page1 = Ok [row0; row1]
    /\ b_bottom (r_box row0) = Fin (8866461766385665 # 140737488355328)
    /\ ceilBottom row0 = Fin 64
    /\ ceilTop row1 = Fin 63
    /\ addTable Demo.tableRounded Sample.page1 = Ok Sample.page1.
Proof.
  do 2 eexists.
  split; [vm_compute; reflexivity |].
  split; [vm_compute; reflexivity |].
  split; [vm_compute; reflexivity |].
  split; vm_compute; reflexivity.
Qed.

(** ** Word deduplication (C4) *)

Lemma includes_In ids id : includes ids id = true <-> In id ids.
Proof.
  unfold includes; rewrite existsb_exists; split.
  - intros (x & Hx & E); apply Nat.eqb_eq in E; subst; exact Hx.
  - intros H; exists id; split; [exact H | apply Nat.eqb_refl].
Qed.

Lemma flat_map_filter_keep {A B : Type} (f : A -> list B) (g : A -> bool) l :
  (forall x, g x = false -> f x = []) ->
  flat_map f (filter g l) = flat_map f l.
Proof.
  intros H; induction l as [| a l IH]; simpl; [reflexivity |].
  destruct (g a) eqn:E; simpl; rewrite IH; [reflexivity |].
  rewrite (H a E); reflexivity.
Qed.

Lemma filter_filter_keep {A : Type} (f g : A -> bool) l :
  (forall x, f x = true -> g x = true) ->
  filter f (filter g l) = filter f l.
Proof.
  intros H; induction l as [| a l IH]; simpl; [reflexivity |].
  destruct (g a) eqn:E; simpl; rewrite IH; [reflexivity |].
  destruct (f a) eqn:F; [rewrite (H a F) in E; discriminate | reflexivity].
Qed.

Lemma removeWordsOfPage_tables page :
  page_tables (removeWordsOfPage page) = page_tables page.
Proof.
  unfold page_tables, removeWordsOfPage; simpl.
  apply flat_map_filter_keep; intros [w | t | id]; simpl;
    try reflexivity; discriminate.
Qed.

Lemma removeWordsOfPage_ids page :
  cellWordsIds (removeWordsOfPage page) = cellWordsIds page.
Proof.
  unfold cellWordsIds, page_cells; rewrite removeWordsOfPage_tables; reflexivity.
Qed.

Lemma removeWordsOfPage_Deduplicated page : Deduplicated (removeWordsOfPage page).
Proof.
  intros w Hin; rewrite removeWordsOfPage_ids.
  unfold removeWordsOfPage in Hin; simpl in Hin.
  apply filter_In in Hin as [_ Hkeep]; simpl in Hkeep.
  rewrite <- includes_In.
  destruct (includes (cellWordsIds page) (w_id w)); [discriminate Hkeep | discriminate].
Qed.

Lemma removeWordsOfPage_nonWords page :
  nonWords (removeWordsOfPage page) = nonWords page.
Proof.
  unfold nonWords, removeWordsOfPage; simpl.
  apply filter_filter_keep; intros e He; rewrite He; apply orb_true_r.
Qed.

Lemma flat_map_nil_inv {A B : Type} (f : A -> list B) l x :
  flat_map f l = [] -> In x l -> f x = [].
Proof.
  induction l as [| a l IH]; simpl; [intros _ [] |].
  intros H [<- | Hin]; apply app_eq_nil in H as [H1 H2]; [exact H1 | auto].
Qed.

Lemma no_tables_Deduplicated doc :
  doc_tables doc = [] -> Forall Deduplicated (d_pages doc).
Proof.
  intros H; apply Forall_forall; intros page Hin w _.
  unfold cellWordsIds, page_cells.
  rewrite (flat_map_nil_inv page_tables _ page H Hin); simpl; tauto.
Qed.

Lemma runPass_Deduplicated rt ex doc config doc' :
  Forall Deduplicated (d_pages doc) ->
  runPass rt ex doc config = Ok doc' ->
  Forall Deduplicated (d_pages doc').
Proof.
  intros Hdoc H; unfold runPass in H; inv_bind H.
  destruct (status a =? 0)%Z.
  - inv_bind H; inv_bind H; injection H as <-; simpl.
    apply Forall_forall; intros page Hin; apply in_map_iff in Hin as (p0 & <- & _).
    apply removeWordsOfPage_Deduplicated.
  - injection H as <-; exact Hdoc.
Qed.



(** ** Failed passes (C6) *)

Lemma defaultExtractor_rejected detectTables inputFile options ps :
  o_pages options = Some ps ->
  (forall flavor lineScale pages areas,
      exists error, detectTables inputFile flavor lineScale pages areas = inr error) ->
  exists r, @readTables (defaultExtractor detectTables) inputFile options = Ok r
            /\ status r = 1%Z /\ stdout r = EmptyString.
Proof.
  intros Hps Hrej; simpl; rewrite Hps.
  match goal with
  | |- context [detectTables ?a ?b ?c ?d ?e] =>
      destruct (Hrej b c d e) as [error ->]
  end.
  eexists; split; [reflexivity | split; reflexivity].
Qed.

Lemma runPass_failure rt ex doc config r :
  @readTables ex (d_inputFile doc) config = Ok r ->
  status r <> 0%Z ->
  runPass rt ex doc config = Ok doc.
Proof.
  intros Hr Hs; unfold runPass; rewrite Hr; simpl.
  apply Z.eqb_neq in Hs; rewrite Hs; reflexivity.
Qed.

(** C6: a configured pass on which the extractor reports a non-zero
    status leaves the document as it is (no table added, no word
    removed), and the stage goes on with the next configured pass: the
    stage behaves as if the failing configuration were not listed. *)
Theorem C6_failed_pass_skipped rt ex (pre rest : list Options) config doc r :
  @readTables ex (d_inputFile doc) config = Ok r ->
  status r <> 0%Z ->
  (forall d, d_inputFile d = d_inputFile doc -> runPass rt ex d config = Ok d)
  /\ main rt ex (pre ++ config :: rest) doc = main rt ex (pre ++ rest) doc.
Proof.
  intros Hr Hs.
  assert (Hskip : forall d, d_inputFile d = d_inputFile doc ->
                            runPass rt ex d config = Ok d).
  { intros d Hd; apply runPass_failure with (r := r); [rewrite Hd |]; assumption. }
  split; [exact Hskip |].
  unfold main.
  destruct (existsSync rt (d_inputFile doc)) as [[|] | e]; try reflexivity.
  destruct (fileTypeExt rt (d_inputFile doc)) as [[ext |] | e]; simpl; try reflexivity.
  destruct (negb (ext =? "pdf")%string); [reflexivity |].
  destruct (negb (List.length (doc_tables doc) =? 0)); [reflexivity |].
  rewrite !foldM_app.
  destruct (foldM (runPass rt ex) doc pre) as [d | e] eqn:Hpre; simpl; [| reflexivity].
  rewrite (Hskip d (runPasses_inputFile _ _ _ _ _ Hpre)); reflexivity.
Qed.

(** The default extractor on a detector that fails: the pass is skipped
    and the lattice pass that follows still runs. *)
Lemma C6_failed_pass_skipped_witness :
  let rt := Sample.runtimeWith Sample.noJson in
  let ex := defaultExtractor Sample.failingDetector in
  (forall d, d_inputFile d = d_inputFile Sample.doc1 ->
             runPass rt ex d Sample.stream = Ok d)
  /\ main rt ex ([] ++ Sample.stream :: [Sample.lattice]) Sample.doc1
     = main rt ex ([] ++ [Sample.lattice]) Sample.doc1.
Proof.
  intros rt ex.
  apply (C6_failed_pass_skipped rt ex [] [Sample.lattice] Sample.stream Sample.doc1
           (mkResult EmptyString "camelot: error" 1)).
  - reflexivity.
  - discriminate.
Defined.

(** ** Page lookup (C10) *)






Lemma main_passes rt ex runConfig doc :
  existsSync rt (d_inputFile doc) = Ok true ->
  fileTypeExt rt (d_inputFile doc) = Ok (Some "pdf"%string) ->
  doc_tables doc = [] ->
  main rt ex runConfig doc = foldM (runPass rt ex) doc runConfig.
Proof.
  intros H1 H2 H3; unfold main; rewrite H1, H2, H3; reflexivity.
Qed.



(** ** What leaves the stage (C2) *)

Lemma columnLoop_total rowIndex pageHeight pageWords cols rows ry :
  nth_error rows rowIndex = Some ry ->
  forall n c st cells,
    exists out, columnLoop rowIndex pageHeight pageWords cols rows n c st cells = Ok out.
Proof.
  intros Hry; induction n as [| n IH]; simpl; intros c st cells.
  - eexists; reflexivity.
  - unfold columnStep; rewrite Hry.
    destruct (findSpanned _ _ _); simpl; [apply IH |].
    destruct (nth_error (rs_row st) c) as [[cell |] |]; simpl; apply IH.
Qed.

Lemma createRows_from_total pageHeight pageWords cols rows cells :
  forall rowIndex spannedCells,
    rowIndex + List.length cells <= List.length rows ->
    exists trs,
      createRows_from pageHeight pageWords cols rows rowIndex cells spannedCells = Ok trs.
Proof.
  induction cells as [| raw cells IH]; simpl; intros rowIndex sp Hlen.
  - eexists; reflexivity.
  - destruct (nth_error rows rowIndex) as [ry |] eqn:Hry;
      [| apply nth_error_None in Hry; lia].
    unfold createRowCells.
    destruct (columnLoop_total rowIndex pageHeight pageWords cols rows ry Hry
                (List.length cols) 0 (mkRowState raw sp) []) as [[tableCells st] ->].
    simpl.
    destruct (IH (S rowIndex) (rs_spannedCells st)) as [trs ->]; [lia |].
    eexists; reflexivity.
Qed.



Lemma candidatesInRow_total tableContent nRow row :
  nth_error tableContent nRow = Some row ->
  forall dataRow c0,
    c0 + List.length dataRow <= List.length (r_content row) ->
    exists cands, candidatesInRow tableContent nRow dataRow c0 = Ok cands.
Proof.
  intros Hrow; induction dataRow as [| cellStr rest IH]; simpl; intros c0 Hlen.
  - eexists; reflexivity.
  - rewrite Hrow.
    destruct (nth_error (r_content row) c0) as [cell |] eqn:Hcell;
      [| apply nth_error_None in Hcell; lia].
    destruct (IH (S c0)) as [cands ->]; [lia |].
    eexists; reflexivity.
Qed.











(** * Further properties of the reconstruction *)

(** ** Rows without column spans *)

Lemma findSpanned_other_row sp col rowIndex :
  (forall sc, In sc sp -> sc_y sc <> rowIndex) -> findSpanned sp col rowIndex = None.
Proof.
  intros H; apply find_none_intro; intros sc Hsc.
  apply andb_false_iff; right; apply Nat.eqb_neq, H, Hsc.
Qed.

Lemma spannedBy_rows_below cell col rowIndex sc :
  spanOr1 (rc_colSpan cell) = 1 ->
  In sc (spannedBy cell col rowIndex) -> rowIndex < sc_y sc.
Proof.
  intros Hspan Hin; apply In_spannedBy in Hin as (dx & dy & Hx & _ & Hne & ->); simpl.
  rewrite Hspan in Hx; destruct Hne; lia.
Qed.

Lemma spannedBy_none cell col rowIndex :
  spanOr1 (rc_colSpan cell) = 1 -> spanOr1 (rc_rowSpan cell) = 1 ->
  spannedBy cell col rowIndex = [].
Proof. intros H1 H2; unfold spannedBy; rewrite H1, H2; reflexivity. Qed.

Section PlainRow.

Variable rowIndex : nat.
Variable pageHeight : number.
Variable pageWords : list Word.
Variable cols : list (Q * Q).
Variable rows : list (Q * Q).

Lemma columnLoop_plain row : forall n c sp cells,
  (forall sc, In sc sp -> sc_y sc <> rowIndex) ->
  (forall cell, In (Some cell) row -> spanOr1 (rc_colSpan cell) = 1) ->
  exists sp',
    columnLoop rowIndex pageHeight pageWords cols rows n c (mkRowState row sp) cells
    = Ok (cells ++ map (tableCellOf pageHeight pageWords)
                       (cat_options (firstn n (skipn c row))),
          mkRowState row sp')
    /\ (forall sc, In sc sp' -> sc_y sc <> rowIndex)
    /\ (forall sc, In sc sp' -> In sc sp \/ rowIndex < sc_y sc)
    /\ ((forall cell, In (Some cell) row -> spanOr1 (rc_rowSpan cell) = 1) -> sp' = sp).
Proof.
  induction n as [| n IH]; intros c sp cells Hsp Hrow; cbn [columnLoop].
  - exists sp; simpl; rewrite app_nil_r; auto.
  - unfold columnStep; cbn [rs_spannedCells rs_row].
    rewrite (findSpanned_other_row sp c rowIndex Hsp).
    destruct (nth_error row c) as [[cell |] |] eqn:Hc; cbn [bind].
    + assert (Hcs : spanOr1 (rc_colSpan cell) = 1)
        by (apply Hrow; eapply nth_error_In; exact Hc).
      destruct (IH (S c) (sp ++ spannedBy cell c rowIndex)
                   (cells ++ [tableCellOf pageHeight pageWords cell]))
        as (sp' & -> & H1 & H2 & H3).
      * intros sc Hsc; apply in_app_iff in Hsc as [Hsc | Hsc]; [apply Hsp, Hsc |].
        apply (spannedBy_rows_below _ _ _ _ Hcs) in Hsc; lia.
      * exact Hrow.
      * exists sp'; split; [| split; [exact H1 | split]].
        -- rewrite (nth_error_skipn_cons _ _ _ Hc); simpl.
           rewrite <- app_assoc; reflexivity.
        -- intros sc Hsc; destruct (H2 sc Hsc) as [Hin | Hlt]; [| auto].
           apply in_app_iff in Hin as [Hin | Hin]; [auto |].
           right; eapply spannedBy_rows_below; eassumption.
        -- intros Hrs; rewrite (H3 Hrs), spannedBy_none; [apply app_nil_r | exact Hcs |].
           apply Hrs; eapply nth_error_In; exact Hc.
    + destruct (IH (S c) sp cells Hsp Hrow) as (sp' & -> & H1 & H2 & H3).
      exists sp'; split; [| repeat split; assumption].
      rewrite (nth_error_skipn_cons _ _ _ Hc); reflexivity.
    + destruct (IH (S c) sp cells Hsp Hrow) as (sp' & -> & H1 & H2 & H3).
      exists sp'; split; [| repeat split; assumption].
      rewrite (skipn_nil_of_None _ _ Hc), firstn_nil.
      assert (E : skipn (S c) row = [])
        by (apply skipn_all2; apply nth_error_None in Hc; lia).
      rewrite E, firstn_nil; reflexivity.
Qed.

End PlainRow.

(** X1: a raw row that nothing spans and whose cells span no column
    becomes exactly its non-null raw cells, in order, cut at the number
    of columns: entries beyond the column count are dropped, the row is
    not padded, nothing is thrown even without a boundary pair for the
    row, and the positions its cells register lie in later rows. *)
Theorem row_without_column_spans rowIndex pageHeight pageWords cols rows row sp :
  (forall sc, In sc sp -> sc_y sc <> rowIndex) ->
  (forall cell, In (Some cell) row -> spanOr1 (rc_colSpan cell) = 1) ->
  exists sp',
    createRowCells rowIndex pageHeight pageWords cols rows row sp
    = Ok (map (tableCellOf pageHeight pageWords)
              (cat_options (firstn (List.length cols) row)),
          mkRowState row sp')
    /\ (forall sc, In sc sp' -> In sc sp \/ rowIndex < sc_y sc).
Proof.
  intros Hsp Hrow; unfold createRowCells.
  destruct (columnLoop_plain rowIndex pageHeight pageWords cols rows row
              (List.length cols) 0 sp [] Hsp Hrow) as (sp' & E & _ & H2 & _).
  exists sp'; split; [exact E | exact H2].
Qed.

(** The first raw row of the sample table, reconstructed with nothing
    spanned so far. *)
Lemma row_without_column_spans_witness :
  exists sp',
    createRowCells 0 (Fin 100) [Sample.word1] (td_cols Sample.tableA)
      (td_rows Sample.tableA) (nth 0 (td_cells Sample.tableA) []) []
    = Ok (map (tableCellOf (Fin 100) [Sample.word1])
              (cat_options (firstn 2 (nth 0 (td_cells Sample.tableA) []))),
          mkRowState (nth 0 (td_cells Sample.tableA) []) sp')
    /\ (forall sc, In sc sp' -> In sc [] \/ 0 < sc_y sc).
Proof.
  apply (row_without_column_spans 0 (Fin 100) [Sample.word1] (td_cols Sample.tableA)
           (td_rows Sample.tableA) (nth 0 (td_cells Sample.tableA) []) []).
  - intros sc [].
  - simpl; unfold Sample.rawCell; intros cell [E | [E | []]];
      injection E as <-; reflexivity.
Defined.

Lemma createRows_from_span_free pageHeight pageWords cols rows cells : forall rowIndex,
  (forall row cell, In row cells -> In (Some cell) row ->
      spanOr1 (rc_colSpan cell) = 1 /\ spanOr1 (rc_rowSpan cell) = 1) ->
  createRows_from pageHeight pageWords cols rows rowIndex cells []
  = Ok (map (fun row =>
               let tableCells := plainCells pageHeight pageWords (List.length cols) row in
               mkRow tableCells (rowBox tableCells))
            cells).
Proof.
  induction cells as [| row cells IH]; intros rowIndex Hfree; cbn [createRows_from map];
    [reflexivity |].
  unfold createRowCells.
  destruct (columnLoop_plain rowIndex pageHeight pageWords cols rows row
              (List.length cols) 0 [] [])
    as (sp' & -> & _ & _ & Hsame).
  - intros sc [].
  - intros cell Hc; apply (Hfree row cell (or_introl eq_refl) Hc).
  - cbn [bind rs_spannedCells]; rewrite Hsame.
    + rewrite IH; [reflexivity |].
      intros r c Hr Hc; apply (Hfree r c (or_intror Hr) Hc).
    + intros cell Hc; apply (Hfree row cell (or_introl eq_refl) Hc).
Qed.

(** X2: for a descriptor in which no cell spans, [createRows] never
    throws and gives, row by row, the non-null raw cells in order, cut at
    the number of columns, with the row box computed over them. *)
Theorem createRows_span_free tableData page :
  (forall row cell, In row (td_cells tableData) -> In (Some cell) row ->
      spanOr1 (rc_colSpan cell) = 1 /\ spanOr1 (rc_rowSpan cell) = 1) ->
  createRows tableData page
  = Ok (map (fun row =>
               let tableCells :=
                 plainCells (b_height (p_box page)) (page_words page)
                            (List.length (td_cols tableData)) row in
               mkRow tableCells (rowBox tableCells))
            (td_cells tableData)).
Proof. intros Hfree; unfold createRows; apply createRows_from_span_free, Hfree. Qed.

(** The sample table has no span. *)
Lemma createRows_span_free_witness :
  createRows Sample.tableA Sample.page1
  = Ok (map (fun row =>
               let tableCells := plainCells (Fin 100) [Sample.word1] 2 row in
               mkRow tableCells (rowBox tableCells))
            (td_cells Sample.tableA)).
Proof.
  apply (createRows_span_free Sample.tableA Sample.page1).
  simpl; unfold Sample.rawCell; intros row cell [<- | [<- | []]] [E | [E | []]];
    injection E as <-; split; reflexivity.
Defined.

(** ** What a raw cell registers *)

Lemma spannedBy_row_length (x colIndex rowIndex n : nat) (f : nat -> nat -> Direction) :
  forall y0,
    List.length
      (flat_map (fun y => if negb (x =? 0) || negb (y =? 0)
                          then [mkSpanned (x + colIndex) (y + rowIndex) (f x y)]
                          else [])
                (seq y0 n))
    = if (x =? 0) && (y0 =? 0) then n - 1 else n.
Proof.
  induction n as [| n IH]; intros y0; simpl.
  - destruct ((x =? 0) && (y0 =? 0)); reflexivity.
  - rewrite length_app, IH.
    destruct (x =? 0), (y0 =? 0) eqn:Ey; simpl; try lia.
Qed.

(** X3: a raw cell with colSpan c and rowSpan r (an absent or zero span
    counting as 1) registers c * r - 1 spanned positions: those of its
    c x r rectangle other than its own, each tagged 'left' off its
    column and 'top' in its column; a cell without spans registers
    none. *)
Theorem spannedBy_count cell colIndex rowIndex :
  List.length (spannedBy cell colIndex rowIndex)
  = spanOr1 (rc_colSpan cell) * spanOr1 (rc_rowSpan cell) - 1
  /\ (forall sc, In sc (spannedBy cell colIndex rowIndex) <->
        exists dx dy,
          dx < spanOr1 (rc_colSpan cell) /\ dy < spanOr1 (rc_rowSpan cell)
          /\ (dx <> 0 \/ dy <> 0)
          /\ sc = mkSpanned (dx + colIndex) (dy + rowIndex) (spanDirection dx))
  /\ (rc_colSpan cell = None \/ rc_colSpan cell = Some 0 \/ rc_colSpan cell = Some 1 ->
      rc_rowSpan cell = None \/ rc_rowSpan cell = Some 0 \/ rc_rowSpan cell = Some 1 ->
      spannedBy cell colIndex rowIndex = []).
Proof.
  split; [| split; [intros sc; apply In_spannedBy |]].
  - unfold spannedBy.
    assert (Hr : 1 <= spanOr1 (rc_rowSpan cell))
      by (destruct (rc_rowSpan cell) as [[| n] |]; simpl; lia).
    generalize (spanOr1 (rc_rowSpan cell)) Hr; intros r Hr1.
    assert (Hgen : forall n x0,
               List.length
                 (flat_map (fun x =>
                    flat_map (fun y => if negb (x =? 0) || negb (y =? 0)
                                       then [mkSpanned (x + colIndex) (y + rowIndex)
                                                       (if 0 <? x then DLeft else DTop)]
                                       else [])
                             (seq 0 r))
                    (seq x0 n))
               = if (x0 =? 0) && (0 <? n) then n * r - 1 else n * r).
    { induction n as [| n IH]; intros x0; simpl.
      - rewrite andb_false_r; reflexivity.
      - rewrite length_app, IH.
        rewrite (spannedBy_row_length x0 colIndex rowIndex r
                   (fun x _ => if 0 <? x then DLeft else DTop) 0).
        destruct (x0 =? 0); simpl; [| lia].
        destruct n; simpl; nia. }
    rewrite Hgen; simpl.
    destruct (rc_colSpan cell) as [[| n] |]; simpl; lia.
  - intros Hc Hr; unfold spannedBy.
    assert (E1 : spanOr1 (rc_colSpan cell) = 1)
      by (destruct Hc as [-> | [-> | ->]]; reflexivity).
    assert (E2 : spanOr1 (rc_rowSpan cell) = 1)
      by (destruct Hr as [-> | [-> | ->]]; reflexivity).
    rewrite E1, E2; reflexivity.
Qed.

(** A cell with colSpan 1 and no rowSpan registers nothing. *)
Lemma spannedBy_count_witness :
  spannedBy (mkRawCell (0, 0)%Q (1, 1)%Q (Some 1) None) 3 4 = [].
Proof.
  apply (proj2 (proj2 (spannedBy_count (mkRawCell (0, 0)%Q (1, 1)%Q (Some 1) None) 3 4))).
  - right; right; reflexivity.
  - left; reflexivity.
Defined.

(** ** What reconstructed cells are *)

Lemma spanDirection_not_right dx : spanDirection dx <> DRight.
Proof. unfold spanDirection; destruct (0 <? dx); discriminate. Qed.

Lemma find_In {A : Type} (f : A -> bool) l x : find f l = Some x -> In x l.
Proof. intros H; apply find_some in H as [H _]; exact H. Qed.

Section Directions.

Variable rowIndex : nat.
Variable pageHeight : number.
Variable pageWords : list Word.
Variable cols : list (Q * Q).
Variable rows : list (Q * Q).

Lemma columnLoop_directions n : forall c st cells cells' st',
  (forall sc, In sc (rs_spannedCells st) -> sc_direction sc <> DRight) ->
  (forall b, ~ In (SpannedTableCell b DRight) cells) ->
  columnLoop rowIndex pageHeight pageWords cols rows n c st cells = Ok (cells', st') ->
  (forall sc, In sc (rs_spannedCells st') -> sc_direction sc <> DRight)
  /\ (forall b, ~ In (SpannedTableCell b DRight) cells').
Proof.
  induction n as [| n IH]; intros c st cells cells' st' Hsp Hcells H; cbn [columnLoop] in H.
  - injection H as <- <-; auto.
  - inv_bind H; destruct a as [pushed st1].
    unfold columnStep in H_l.
    destruct (findSpanned (rs_spannedCells st) c rowIndex) as [sc |] eqn:Hsc.
    + destruct (nth_error rows rowIndex) as [ry |]; [| discriminate].
      injection H_l as <- <-.
      eapply IH; [| | exact H]; [exact Hsp |].
      intros b Hin; apply in_app_iff in Hin as [Hin | [Hin | []]]; [eapply Hcells, Hin |].
      unfold spannedCellAt in Hin; destruct (nth c cols (0, 0)%Q).
      injection Hin as _ Hdir.
      apply (Hsp sc); [eapply find_In; exact Hsc | exact Hdir].
    + destruct (nth_error (rs_row st) c) as [[cell |] |]; injection H_l as <- <-.
      * eapply IH; [| | exact H]; simpl.
        -- intros sc Hin; apply in_app_iff in Hin as [Hin | Hin]; [apply Hsp, Hin |].
           apply In_spannedBy in Hin as (dx & dy & _ & _ & _ & ->); simpl.
           apply spanDirection_not_right.
        -- intros b Hin; apply in_app_iff in Hin as [Hin | [Hin | []]];
             [eapply Hcells, Hin | discriminate Hin].
      * eapply IH; [| | exact H]; assumption.
      * eapply IH; [| | exact H]; assumption.
Qed.

End Directions.

Lemma createRows_from_directions pageHeight pageWords cols rows cells : forall r sp trs,
  (forall sc, In sc sp -> sc_direction sc <> DRight) ->
  createRows_from pageHeight pageWords cols rows r cells sp = Ok trs ->
  forall tr b, In tr trs -> ~ In (SpannedTableCell b DRight) (r_content tr).
Proof.
  induction cells as [| row cells IH]; simpl; intros r sp trs Hsp H tr b Hin.
  - injection H as <-; destruct Hin.
  - inv_bind H; destruct a as [tableCells st]; inv_bind H; injection H as <-.
    unfold createRowCells in H_l.
    apply columnLoop_directions in H_l as [Hsp' Hcells]; [| exact Hsp | intros b' []].
    destruct Hin as [<- | Hin]; [apply Hcells | eapply IH; eassumption].
Qed.

(** X4: the direction 'right' is never used: every SpannedTableCell of a
    reconstructed row is tagged 'left' or 'top'. *)
Theorem no_cell_spanned_from_the_right tableData page trs tr b direction :
  createRows tableData page = Ok trs ->
  In tr trs -> In (SpannedTableCell b direction) (r_content tr) ->
  direction = DLeft \/ direction = DTop.
Proof.
  intros H Htr Hin; unfold createRows in H.
  destruct direction; auto.
  exfalso; eapply createRows_from_directions; try eassumption.
  intros sc [].
Qed.

(** The spanned cell at the end of the first row of the sample table
    with spans. *)
Lemma no_cell_spanned_from_the_right_witness :
  DLeft = DLeft \/ DLeft = DTop.
Proof.
  apply (no_cell_spanned_from_the_right Sample.tableSpan Sample.page1 Sample.rowsSpan
           (nth 0 Sample.rowsSpan (mkRow [] (Sample.box 0 0 0 0)))
           (Some (Sample.box 20 0 10 10)) DLeft).
  - reflexivity.
  - left; reflexivity.
  - right; right; left; reflexivity.
Defined.

(** X5: every cell of a reconstructed row has a box and is either a
    SpannedTableCell or a TableCell whose content is the list of page
    words picked by [wordsInCellBox] for that box: every word of a cell
    is a top-level word of the page and lies for more than three
    quarters in the cell's box. *)
Theorem cells_hold_words_of_the_page tableData page trs tr c :
  createRows tableData page = Ok trs ->
  In tr trs -> In c (r_content tr) ->
  exists b,
    c_box c = Some b
    /\ ((exists direction, c = SpannedTableCell (Some b) direction)
        \/ (exists cs rs,
               c = TableCell (Some b) (wordsInCellBox b (page_words page)) cs rs))
    /\ (forall w, In w (c_content c) ->
                   In (EWord w) (p_elements page) /\ overlapsMuch w b).
Proof.
  intros H Htr Hc; unfold createRows in H.
  apply createRows_from_rows in H as [_ Hrows].
  apply In_nth_error in Htr as [i Hi].
  destruct (Hrows i tr Hi) as (raw & sp & st & _ & Hcells).
  apply createRowCells_slots in Hcells as (slots & _ & Hcat & Hlen & Hslot).
  assert (Hin : In (Some c) slots).
  { rewrite Hcat in Hc; unfold cat_options in Hc; apply in_flat_map in Hc as ([c' |] & H1 & H2);
      [destruct H2 as [<- | []]; exact H1 | destruct H2]. }
  apply In_nth_error in Hin as [col Hcol].
  assert (Hlt : col < List.length (td_cols tableData))
    by (rewrite <- Hlen; apply nth_error_Some; rewrite Hcol; discriminate).
  specialize (Hslot col Hlt); rewrite (nth_error_nth _ _ _ Hcol) in Hslot.
  assert (Hwords : forall w, In w (page_words page) -> In (EWord w) (p_elements page)).
  { intros w; unfold page_words; rewrite in_flat_map.
    intros ([w' | t | id] & He & Hw); simpl in Hw; try destruct Hw as [<- | []]; auto;
      destruct Hw. }
  inversion Hslot as [sc ry _ _ Ec | rawc _ _ Ec |]; subst c.
  - unfold spannedCellAt; destruct (nth col (td_cols tableData) (0, 0)%Q).
    eexists; split; [reflexivity |]; split; [left; eexists; reflexivity |].
    intros w [].
  - unfold tableCellOf; eexists; split; [reflexivity |]; split.
    + right; do 2 eexists; reflexivity.
    + intros w Hw; simpl in Hw; apply In_wordsInCellBox in Hw as [H1 H2]; auto.
Qed.

(** The first cell of the sample table with spans holds the word of the
    page. *)
Lemma cells_hold_words_of_the_page_witness :
  exists b,
    Some (Sample.box 0 0 10 20) = Some b
    /\ forall w, In w [Sample.word1] ->
                 In (EWord w) (p_elements Sample.page1) /\ overlapsMuch w b.
Proof.
  destruct (cells_hold_words_of_the_page Sample.tableSpan Sample.page1 Sample.rowsSpan
              (nth 0 Sample.rowsSpan (mkRow [] (Sample.box 0 0 0 0)))
              (TableCell (Some (Sample.box 0 0 10 20)) [Sample.word1] None (Some 2)))
    as (b & Hbox & _ & Hwords).
  - reflexivity.
  - left; reflexivity.
  - left; reflexivity.
  - exists b; split; [exact Hbox | exact Hwords].
Defined.

(** ** Errors of the reconstruction *)

Lemma columnLoop_Throw rowIndex pageHeight pageWords cols rows n :
  forall c st cells e,
    columnLoop rowIndex pageHeight pageWords cols rows n c st cells = Throw e ->
    e = TypeError /\ nth_error rows rowIndex = None.
Proof.
  induction n as [| n IH]; intros c st cells e H; cbn [columnLoop] in H; [discriminate |].
  unfold columnStep in H.
  destruct (findSpanned (rs_spannedCells st) c rowIndex).
  - destruct (nth_error rows rowIndex); cbn [bind] in H;
      [eapply IH; exact H | injection H as <-; auto].
  - destruct (nth_error (rs_row st) c) as [[cell |] |]; cbn [bind] in H;
      eapply IH; exact H.
Qed.

Lemma createRows_from_Throw pageHeight pageWords cols rows cells :
  forall r sp e,
    createRows_from pageHeight pageWords cols rows r cells sp = Throw e ->
    e = TypeError /\ List.length rows < r + List.length cells.
Proof.
  induction cells as [| row cells IH]; simpl; intros r sp e H; [discriminate |].
  unfold createRowCells in H.
  destruct (columnLoop r pageHeight pageWords cols rows (List.length cols) 0
              (mkRowState row sp) []) as [[tableCells st] | e'] eqn:E; cbn [bind] in H.
  - destruct (createRows_from pageHeight pageWords cols rows (S r) cells
                (rs_spannedCells st)) eqn:E2; cbn [bind] in H; [discriminate |].
    injection H as <-; apply IH in E2 as [-> Hlen]; split; [reflexivity | lia].
  - injection H as <-; apply columnLoop_Throw in E as [-> Hnone].
    split; [reflexivity |]. apply nth_error_None in Hnone; lia.
Qed.

(** X6: [createRows] returns whenever every row of the cell grid has a
    boundary pair; when it does not return, what it throws is a
    TypeError and the descriptor has fewer boundary pairs than cell
    rows; and a row without boundary pair whose first column is spanned
    does throw. *)
Theorem createRows_errors tableData page :
  (List.length (td_cells tableData) <= List.length (td_rows tableData) ->
   exists trs, createRows tableData page = Ok trs)
  /\ (forall e, createRows tableData page = Throw e ->
                 e = TypeError
                 /\ List.length (td_rows tableData) < List.length (td_cells tableData))
  /\ (forall rowIndex row sp sc,
         td_cols tableData <> [] ->
         nth_error (td_rows tableData) rowIndex = None ->
         findSpanned sp 0 rowIndex = Some sc ->
         createRowCells rowIndex (b_height (p_box page)) (page_words page)
                        (td_cols tableData) (td_rows tableData) row sp
         = Throw TypeError).
Proof.
  split; [| split].
  - intros Hlen; apply createRows_from_total; exact Hlen.
  - intros e H; apply createRows_from_Throw in H; exact H.
  - intros rowIndex row sp sc Hcols Hnone Hsc; unfold createRowCells.
    destruct (td_cols tableData) as [| col cols]; [contradiction |].
    cbn [List.length columnLoop]; unfold columnStep; simpl rs_spannedCells.
    rewrite Hsc, Hnone; reflexivity.
Qed.

(** The sample table has a boundary pair for each of its rows; with a
    single pair, its second row - spanned from above at column 0 -
    throws. *)
Lemma createRows_errors_witness :
  (exists trs, createRows Sample.tableA Sample.page1 = Ok trs)
  /\ createRowCells 1 (Fin 100) [Sample.word1] (td_cols Demo.tableShort)
       (td_rows Demo.tableShort) (nth 1 (td_cells Demo.tableShort) [])
       [mkSpanned 0 1 DTop]
     = Throw TypeError.
Proof.
  split.
  - apply (proj1 (createRows_errors Sample.tableA Sample.page1)); simpl; lia.
  - apply (proj2 (proj2 (createRows_errors Demo.tableShort Sample.page1))
             1 (nth 1 (td_cells Demo.tableShort) []) [mkSpanned 0 1 DTop]
             (mkSpanned 0 1 DTop)).
    + discriminate.
    + reflexivity.
    + reflexivity.
Defined.

(** * Further properties of the merge *)

(** ** Errors of the merge *)

Lemma candidatesInRow_Ok tableContent nRow : forall dataRow c0 cands,
  candidatesInRow tableContent nRow dataRow c0 = Ok cands ->
  dataRow = []
  \/ exists row, nth_error tableContent nRow = Some row
                 /\ c0 + List.length dataRow <= List.length (r_content row).
Proof.
  induction dataRow as [| cellStr rest IH]; simpl; intros c0 cands H; [left; reflexivity |].
  right; destruct (nth_error tableContent nRow) as [row |] eqn:Hrow; [| discriminate].
  exists row; split; [reflexivity |].
  destruct (nth_error (r_content row) c0) as [cell |] eqn:Hcell; [| discriminate].
  inv_bind H.
  destruct (IH _ _ H_l) as [-> | (row' & [= <-] & Hlen)]; simpl; [| lia].
  assert (c0 < List.length (r_content row))
    by (apply nth_error_Some; rewrite Hcell; discriminate).
  lia.
Qed.

Lemma candidatesInRow_Throw tableContent nRow : forall dataRow c0 e,
  candidatesInRow tableContent nRow dataRow c0 = Throw e -> e = TypeError.
Proof.
  induction dataRow as [| cellStr rest IH]; simpl; intros c0 e H; [discriminate |].
  destruct (nth_error tableContent nRow) as [row |]; [| injection H as <-; reflexivity].
  destruct (nth_error (r_content row) c0); [| injection H as <-; reflexivity].
  destruct (candidatesInRow tableContent nRow rest (S c0)) eqn:E; [discriminate |].
  injection H as <-; eapply IH; exact E.
Qed.

Lemma candidateRows_Ok tableContent tableData : forall n0 m,
  candidateRows tableContent tableData n0 = Ok m ->
  forall i dataRow,
    nth_error tableData i = Some dataRow ->
    dataRow = []
    \/ exists row, nth_error tableContent (n0 + i) = Some row
                   /\ List.length dataRow <= List.length (r_content row).
Proof.
  induction tableData as [| d rest IH]; simpl; intros n0 m H i dataRow Hi.
  - destruct i; discriminate.
  - inv_bind H; inv_bind H.
    destruct i as [| i]; simpl in Hi.
    + injection Hi as <-; rewrite Nat.add_0_r.
      apply candidatesInRow_Ok in H_l; exact H_l.
    + replace (n0 + S i) with (S n0 + i) by lia; eapply IH; eassumption.
Qed.

Lemma candidateRows_fits tableContent tableData : forall n0,
  (forall i dataRow,
      nth_error tableData i = Some dataRow ->
      dataRow = []
      \/ exists row, nth_error tableContent (n0 + i) = Some row
                     /\ List.length dataRow <= List.length (r_content row)) ->
  exists m, candidateRows tableContent tableData n0 = Ok m.
Proof.
  induction tableData as [| d rest IH]; simpl; intros n0 Hfit; [eexists; reflexivity |].
  assert (Hd : exists cands, candidatesInRow tableContent n0 d 0 = Ok cands).
  { destruct (Hfit 0 d eq_refl) as [-> | (row & Hrow & Hlen)]; [eexists; reflexivity |].
    rewrite Nat.add_0_r in Hrow; eapply candidatesInRow_total; [exact Hrow | simpl; lia]. }
  destruct Hd as [cands ->]; cbn [bind].
  destruct (IH (S n0)) as [m ->]; [| eexists; reflexivity].
  intros i dataRow Hi; replace (S n0 + i) with (n0 + S i) by lia; apply Hfit, Hi.
Qed.

Lemma candidateRows_Throw tableContent tableData : forall n0 e,
  candidateRows tableContent tableData n0 = Throw e -> e = TypeError.
Proof.
  induction tableData as [| d rest IH]; simpl; intros n0 e H; [discriminate |].
  destruct (candidatesInRow tableContent n0 d 0) eqn:E1; simpl in H;
    [| injection H as <-; eapply candidatesInRow_Throw; exact E1].
  destruct (candidateRows tableContent rest (S n0)) eqn:E2; simpl in H; [discriminate |].
  injection H as <-; eapply IH; exact E2.
Qed.

(** X7: the merge returns exactly when the expected-text grid fits the
    table content; when a grid row is longer than its table row, or has
    no table row, [getMergeCandidateCellPositions] - and with it
    [joinCellsByContent] - throws a TypeError. *)
Theorem merge_returns_iff_grid_fits tableContent tableData :
  ((exists entries, getMergeCandidateCellPositions tableContent tableData = Ok entries)
   <-> gridFits tableContent tableData)
  /\ ((exists joined, joinCellsByContent tableContent tableData = Ok joined)
      <-> gridFits tableContent tableData)
  /\ (~ gridFits tableContent tableData ->
      getMergeCandidateCellPositions tableContent tableData = Throw TypeError
      /\ joinCellsByContent tableContent tableData = Throw TypeError).
Proof.
  assert (H1 : (exists entries,
                   getMergeCandidateCellPositions tableContent tableData = Ok entries)
               <-> gridFits tableContent tableData).
  { unfold getMergeCandidateCellPositions; split.
    - intros [entries H]; inv_bind H.
      intros nRow dataRow Hd; apply (candidateRows_Ok _ _ _ _ H_l nRow dataRow Hd).
    - intros Hfit; destruct (candidateRows_fits tableContent tableData 0 Hfit) as [m ->].
      eexists; reflexivity. }
  assert (H2 : (exists joined, joinCellsByContent tableContent tableData = Ok joined)
               <-> gridFits tableContent tableData).
  { rewrite <- H1; unfold joinCellsByContent; split.
    - intros [joined H]; inv_bind H; eauto.
    - intros [entries ->]; eexists; reflexivity. }
  split; [exact H1 |]; split; [exact H2 |].
  intros Hnot.
  assert (E : getMergeCandidateCellPositions tableContent tableData = Throw TypeError).
  { destruct (getMergeCandidateCellPositions tableContent tableData) as [entries | e] eqn:E.
    - exfalso; apply Hnot, H1; eauto.
    - unfold getMergeCandidateCellPositions in E.
      destruct (candidateRows tableContent tableData 0) eqn:E'; simpl in E; [discriminate |].
      injection E as <-; f_equal; eapply candidateRows_Throw; exact E'. }
  split; [exact E |]; unfold joinCellsByContent; rewrite E; reflexivity.
Qed.

(** A grid with a text for a table without rows. *)
Lemma merge_returns_iff_grid_fits_witness :
  getMergeCandidateCellPositions [] [["x"%string]] = Throw TypeError
  /\ joinCellsByContent [] [["x"%string]] = Throw TypeError.
Proof.
  apply (proj2 (proj2 (merge_returns_iff_grid_fits [] [["x"%string]]))).
  intros H; destruct (H 0 ["x"%string] eq_refl) as [E | (row & Hrow & _)]; discriminate.
Defined.

(** ** Shape of the merge groups *)

Lemma Blocks_skip_app l1 l groups : Blocks l groups -> Blocks (l1 ++ l) groups.
Proof. intros H; induction l1; simpl; [exact H | constructor; exact IHl1]. Qed.

Lemma Blocks_app l1 g1 l2 g2 :
  Blocks l1 g1 -> Blocks l2 g2 -> Blocks (l1 ++ l2) (g1 ++ g2).
Proof.
  intros H1 H2; induction H1 as [l | x l gs _ IH | g l gs Hg _ IH]; simpl.
  - apply Blocks_skip_app, H2.
  - constructor; exact IH.
  - rewrite <- app_assoc; constructor; assumption.
Qed.

Lemma greedy_Blocks dataRow rowCells rest : forall sub,
  sub <> [] -> Blocks (sub ++ rest) (greedy dataRow rowCells rest sub).
Proof.
  induction rest as [| c rest IH]; intros sub Hsub; simpl.
  - destruct (textsAgree dataRow rowCells sub); [constructor; [exact Hsub | constructor] |].
    destruct (actualLonger dataRow rowCells sub); constructor.
  - assert (Hc : Blocks (c :: rest) (greedy dataRow rowCells rest [c]))
      by (apply (IH [c]); discriminate).
    destruct (textsAgree dataRow rowCells sub); [constructor; assumption |].
    destruct (actualLonger dataRow rowCells sub); [apply Blocks_skip_app, Hc |].
    replace (sub ++ c :: rest) with ((sub ++ [c]) ++ rest)
      by (rewrite <- app_assoc; reflexivity).
    apply IH; intros E; apply app_eq_nil in E as [_ E]; discriminate.
Qed.

Lemma NoDup_split (g l : list nat) :
  NoDup (g ++ l) -> NoDup g /\ NoDup l /\ forall x, In x g -> ~ In x l.
Proof.
  induction g as [| a g IH]; simpl; intros H.
  - repeat split; [constructor | exact H | intros x []].
  - apply NoDup_cons_iff in H as [Ha H]; destruct (IH H) as (Hg & Hl & Hdis).
    repeat split; [| exact Hl |].
    + constructor; [intros Hin; apply Ha, in_or_app; auto | exact Hg].
    + intros x [<- | Hx]; [intros Hin; apply Ha, in_or_app; auto | apply Hdis, Hx].
Qed.

Lemma Blocks_members l groups :
  Blocks l groups ->
  Forall (fun g => g <> []) groups
  /\ (forall x, In x (List.concat groups) -> In x l)
  /\ (NoDup l -> NoDup (List.concat groups)).
Proof.
  induction 1 as [l | x l gs _ (IH1 & IH2 & IH3) | g l gs Hg _ (IH1 & IH2 & IH3)]; simpl.
  - repeat split; [constructor | intros x [] | constructor].
  - repeat split; [exact IH1 | auto |].
    intros Hnd; apply NoDup_cons_iff in Hnd as [_ Hnd]; auto.
  - repeat split; [constructor; assumption | |].
    + intros x Hx; apply in_app_iff in Hx; apply in_app_iff; destruct Hx; auto.
    + intros Hnd; apply NoDup_split in Hnd as (Hg1 & Hl & Hdis).
      apply NoDup_app; auto.
      intros x Hx Hx'; apply (Hdis x Hx), IH2, Hx'.
Qed.

(** X8: the merge groups committed for a row are non-empty blocks of
    adjacent columns of its runs, taken from left to right: every merged
    column is a candidate column, and no column is merged twice. *)
Theorem merge_groups_are_blocks dataRow rowCells groups :
  Blocks (List.concat groups) (rowGroupsToMerge dataRow rowCells groups)
  /\ Forall (fun g => g <> []) (rowGroupsToMerge dataRow rowCells groups)
  /\ (forall col, In col (List.concat (rowGroupsToMerge dataRow rowCells groups)) ->
                  In col (List.concat groups))
  /\ (NoDup (List.concat groups) ->
      NoDup (List.concat (rowGroupsToMerge dataRow rowCells groups))).
Proof.
  assert (H : Blocks (List.concat groups) (rowGroupsToMerge dataRow rowCells groups)).
  { rewrite rowGroupsToMerge_greedy.
    induction groups as [| g groups IH]; simpl; [constructor |].
    apply Blocks_app; [| exact IH].
    destruct g as [| c rest]; simpl; [constructor |].
    apply (greedy_Blocks dataRow rowCells rest [c]); discriminate. }
  split; [exact H | apply Blocks_members, H].
Qed.

(** The first row of the stream sample with its run of columns 0, 1. *)
Lemma merge_groups_are_blocks_witness :
  NoDup (List.concat
           (rowGroupsToMerge (nth 0 Demo.gridS [])
              (r_content (nth 0 Demo.rowsS (mkRow [] (Sample.box 0 0 0 0))))
              [[0; 1]])).
Proof.
  apply (proj2 (proj2 (proj2
           (merge_groups_are_blocks (nth 0 Demo.gridS [])
              (r_content (nth 0 Demo.rowsS (mkRow [] (Sample.box 0 0 0 0))))
              [[0; 1]])))).
  simpl; constructor; [intros [E | []]; discriminate |].
  constructor; [intros [] | constructor].
Defined.

(** ** Rows the merge leaves alone *)

(** X9: the merge keeps the number of rows and rewrites a row only where
    two or more adjacent columns differ from the expected text: a row
    without such a run - a row beyond the grid, a row whose texts all
    match, a row where only isolated columns differ - comes back as it
    was. *)
Theorem merge_leaves_rows_without_runs tableContent tableData joined :
  joinCellsByContent tableContent tableData = Ok joined ->
  List.length joined = List.length tableContent
  /\ forall nRow row,
      nth_error tableContent nRow = Some row ->
      (forall dataRow, nth_error tableData nRow = Some dataRow ->
                       candidateGroups (differing row dataRow) = []) ->
      nth_error joined nRow = Some row.
Proof.
  intros H; apply joinCellsByContent_rows in H as (entries & Hentries & Hlen & Hrows).
  split; [exact Hlen |].
  intros nRow row Hrow Hnone; rewrite (Hrows nRow row Hrow); f_equal.
  unfold rowAfterJoin, groupsOfRow.
  destruct (find (fun entry => fst entry =? nRow) entries) as [[k groups] |] eqn:Hfind;
    [| reflexivity].
  exfalso; apply find_some in Hfind as [Hin Hk]; simpl in Hk.
  apply Nat.eqb_eq in Hk; subst k.
  apply (getMergeCandidateCellPositions_spec _ _ _ Hentries) in Hin
    as (dataRow & row' & Hd & Hrow' & -> & Hne).
  rewrite Hrow in Hrow'; injection Hrow' as <-.
  apply Hne, Hnone, Hd.
Qed.

(** In the stream sample the second row has no run and is kept. *)
Lemma merge_leaves_rows_without_runs_witness :
  List.length Demo.joinedS = List.length Demo.rowsS
  /\ nth_error Demo.joinedS 1 = nth_error Demo.rowsS 1.
Proof.
  destruct (merge_leaves_rows_without_runs Demo.rowsS Demo.gridS Demo.joinedS)
    as [Hlen Hrows]; [vm_compute; reflexivity |].
  split; [exact Hlen |].
  apply (Hrows 1 (nth 1 Demo.rowsS (mkRow [] (Sample.box 0 0 0 0)))); [reflexivity |].
  intros dataRow E; injection E as <-; vm_compute; reflexivity.
Defined.

(** * Further properties of the validity check *)

(** ** Edge cases of the validity check *)

Lemma num_eqb_sym a b : num_eqb a b = num_eqb b a.
Proof.
  destruct a, b; simpl; try reflexivity.
  destruct (Qeq_bool q q0) eqn:E1, (Qeq_bool q0 q) eqn:E2; try reflexivity.
  - apply Qeq_bool_iff in E1; symmetry in E1; apply Qeq_bool_iff in E1; congruence.
  - apply Qeq_bool_iff in E2; symmetry in E2; apply Qeq_bool_iff in E2; congruence.
Qed.

Lemma existAdjacentRow_found t i row r :
  nth_error (t_content t) i = Some row ->
  In r (t_content t) ->
  (if i + 1 =? List.length (t_content t)
   then num_eqb (ceilBottom r) (ceilTop row)
   else num_eqb (ceilTop r) (ceilBottom row)) = true ->
  existAdjacentRow i t <> None.
Proof.
  intros Hrow Hin Hmatch Hnone.
  apply (existAdjacentRow_None _ _ _ Hrow) in Hnone; apply Hnone.
  unfold HasNeighbour; destruct (i + 1 =? List.length (t_content t)); exists r; auto.
Qed.

(** X10: a table of two or more rows in which the rounded-up top of every
    row equals the rounded-up bottom of the row before it is accepted;
    so is a table without rows. *)
Theorem stacked_rows_accepted t :
  List.length (t_content t) <> 1 ->
  (forall i row next,
      nth_error (t_content t) i = Some row ->
      nth_error (t_content t) (S i) = Some next ->
      num_eqb (ceilTop next) (ceilBottom row) = true) ->
  isFalseTable t = false.
Proof.
  intros Hlen Hstack; unfold isFalseTable.
  apply orb_false_iff; split; [apply Nat.eqb_neq, Hlen |].
  destruct (existsb _ _) eqn:E; [| reflexivity]; exfalso.
  apply existsb_exists in E as (i & Hi & Hu); apply in_seq in Hi.
  destruct (nth_error (t_content t) i) as [row |] eqn:Hrow;
    [| apply nth_error_None in Hrow; lia].
  assert (Hsome : existAdjacentRow i t <> None);
    [| destruct (existAdjacentRow i t); [discriminate | contradiction]].
  destruct (Nat.eqb_spec (i + 1) (List.length (t_content t))) as [Hlast | Hnot].
  - destruct i as [| j]; [lia |].
    destruct (nth_error (t_content t) j) as [prev |] eqn:Hprev;
      [| apply nth_error_None in Hprev; lia].
    apply (existAdjacentRow_found t (S j) row prev Hrow (nth_error_In _ _ Hprev)).
    rewrite Hlast, Nat.eqb_refl, num_eqb_sym; eapply Hstack; eassumption.
  - destruct (nth_error (t_content t) (S i)) as [next |] eqn:Hnext;
      [| apply nth_error_None in Hnext; lia].
    apply (existAdjacentRow_found t i row next Hrow (nth_error_In _ _ Hnext)).
    destruct (Nat.eqb_spec (i + 1) (List.length (t_content t))); [contradiction |].
    eapply Hstack; eassumption.
Qed.

(** The table attached to the sample document. *)
Lemma stacked_rows_accepted_witness : isFalseTable Demo.tableOfDocA = false.
Proof.
  apply (stacked_rows_accepted Demo.tableOfDocA).
  - simpl; lia.
  - intros [| [| i]] row next H1 H2; simpl in H1, H2.
    + injection H1 as <-; injection H2 as <-; reflexivity.
    + discriminate H2.
    + destruct i; discriminate H1.
Defined.

(** A row box computed over no cell. *)
Lemma rowBox_nil tableCells :
  boxesOf tableCells = [] -> rowBox tableCells = mkBox PInf PInf NInf NaN.
Proof. intros H; unfold rowBox; rewrite H; reflexivity. Qed.

(** The box of a row without a cell with a box meets no other row below
    it: its rounded-up bottom is [NaN]; its rounded-up top is
    [Infinity]. *)
Lemma empty_row_edges tr :
  r_box tr = rowBox (r_content tr) -> boxesOf (r_content tr) = [] ->
  ceilTop tr = PInf /\ ceilBottom tr = NaN.
Proof.
  intros Hbox Hempty; unfold ceilTop, ceilBottom.
  rewrite Hbox, (rowBox_nil _ Hempty); split; reflexivity.
Qed.

Lemma num_eqb_NaN a : num_eqb a NaN = false.
Proof. destruct a; reflexivity. Qed.

Lemma filter_nothing (f : TableRow -> bool) rows :
  (forall r, In r rows -> f r = false) -> filter f rows = [].
Proof.
  intros Hall; induction rows as [| r rows IH]; simpl; [reflexivity |].
  rewrite (Hall r (or_introl eq_refl)); apply IH; intros r' Hr'; apply Hall; right; exact Hr'.
Qed.

(** X11: a table that asks for no merge and in which some reconstructed
    row holds no cell (its raw entries are null or missing and nothing
    spans them, or there is no column) is not attached, unless that row
    is the last of several and some row of the table has [Infinity] as
    its rounded-up bottom.  The row box of such a row is computed over
    nothing: its top is [Infinity] and its bottom [NaN]. *)
Theorem table_with_empty_row_dropped tableData page rows i tr :
  td_content tableData = None \/ td_flavor tableData <> "stream"%string ->
  createRows tableData page = Ok rows ->
  nth_error rows i = Some tr -> r_content tr = [] ->
  S i < List.length rows
  \/ List.length rows = 1
  \/ (forall r, In r rows -> num_eqb (ceilBottom r) PInf = false) ->
  addTable tableData page = Ok page.
Proof.
  intros Hplain Hrows Hi Hempty Hcond.
  unfold addTable, reconstructTable; rewrite Hrows; cbn [bind].
  assert (E : match td_content tableData with
              | Some data =>
                  if (td_flavor tableData =? "stream")%string
                  then joinCellsByContent rows data else Ok rows
              | None => Ok rows
              end = Ok rows).
  { destruct Hplain as [-> | Hne]; [reflexivity |].
    destruct (td_content tableData); [| reflexivity].
    destruct (String.eqb_spec (td_flavor tableData) "stream"); [contradiction | reflexivity]. }
  rewrite E; cbn [bind].
  assert (Hfalse : isFalseTable
                     (mkTable rows (t_box (createTable tableData (b_height (p_box page)))))
                   = true); [| rewrite Hfalse; reflexivity].
  unfold isFalseTable; cbn [t_content].
  destruct (Nat.eqb_spec (List.length rows) 1) as [H1 | Hmany]; [reflexivity |].
  cbn [orb]; apply existsb_exists; exists i; split.
  { apply in_seq; split; [lia |]; apply nth_error_Some; rewrite Hi; discriminate. }
  assert (Hbox : r_box tr = rowBox (r_content tr)).
  { unfold createRows in Hrows; apply createRows_from_rowBox in Hrows.
    rewrite Forall_forall in Hrows; apply Hrows; eapply nth_error_In; exact Hi. }
  destruct (empty_row_edges tr Hbox) as [Htop Hbottom]; [rewrite Hempty; reflexivity |].
  unfold existAdjacentRow, existPreviousRow; cbn [t_content]; rewrite Hi.
  fold (ceilTop tr); fold (ceilBottom tr); rewrite Htop, Hbottom.
  destruct (Nat.eqb_spec (i + 1) (List.length rows)) as [Hlast | Hnot].
  - destruct Hcond as [Hlt | [Hone | Hbottoms]]; [lia | contradiction |].
    rewrite filter_nothing; [reflexivity | exact Hbottoms].
  - rewrite filter_nothing; [reflexivity |].
    intros r _; apply num_eqb_NaN.
Qed.

(** The sample table whose first raw row holds only nulls. *)
Lemma table_with_empty_row_dropped_witness :
  addTable Demo.tableGap Sample.page1 = Ok Sample.page1.
Proof.
  apply (table_with_empty_row_dropped Demo.tableGap Sample.page1 Demo.rowsGap 0
           (nth 0 Demo.rowsGap (mkRow [] (Sample.box 0 0 0 0)))).
  - left; reflexivity.
  - reflexivity.
  - reflexivity.
  - reflexivity.
  - left; simpl; lia.
Defined.

(** The exception at work: the one cell of the first row reaches beyond
    the greatest double and its bottom overflows to [Infinity]; the row
    of nulls below it, whose top is [Infinity], passes for its
    neighbour, and the table is attached with a row that holds no
    cell. *)
Example empty_last_row_attached_on_overflow :
  exists rows row0 row1 page',
    createRows Demo.tableHuge Sample.page1 = Ok rows
    /\ rows = [row0; row1]
    /\ r_content row1 = []
    /\ ceilBottom row0 = PInf
    /\ ceilTop row1 = PInf
    /\ addTable Demo.tableHuge Sample.page1 = Ok page'
    /\ page_tables page' = [mkTable rows (t_box (createTable Demo.tableHuge (Fin 100)))].
Proof.
  do 4 eexists.
  split; [vm_compute; reflexivity |].
  split; [reflexivity |].
  split; [reflexivity |].
  split; [vm_compute; reflexivity |].
  split; [vm_compute; reflexivity |].
  split; [vm_compute; reflexivity |].
  vm_compute; reflexivity.
Qed.

(** X12: a descriptor with an empty cell grid that asks for no merge gives
    a table without rows, which passes the validity check and is
    attached. *)
Theorem empty_grid_attached tableData page :
  td_cells tableData = [] ->
  td_content tableData = None \/ td_flavor tableData <> "stream"%string ->
  addTable tableData page
  = Ok (attach (createTable tableData (b_height (p_box page))) page).
Proof.
  intros Hcells Hplain.
  unfold addTable, reconstructTable, createRows; rewrite Hcells; cbn [createRows_from bind].
  assert (E : match td_content tableData with
              | Some data =>
                  if (td_flavor tableData =? "stream")%string
                  then joinCellsByContent [] data else Ok []
              | None => Ok []
              end = Ok []).
  { destruct Hplain as [-> | Hne]; [reflexivity |].
    destruct (td_content tableData); [| reflexivity].
    destruct (String.eqb_spec (td_flavor tableData) "stream"); [contradiction | reflexivity]. }
  rewrite E; reflexivity.
Qed.

(** The sample descriptor without cell rows. *)
Lemma empty_grid_attached_witness :
  addTable Demo.tableEmpty Sample.page1
  = Ok (attach (createTable Demo.tableEmpty (Fin 100)) Sample.page1).
Proof.
  apply (empty_grid_attached Demo.tableEmpty Sample.page1);
    [reflexivity | left; reflexivity].
Defined.

(** * Further properties of the stage *)

(** ** The stage only appends tables and removes words *)

Lemma filter_true {A : Type} (l : list A) : filter (fun _ => true) l = l.
Proof. induction l as [| a l IH]; simpl; [| rewrite IH]; reflexivity. Qed.

Lemma filter_and {A : Type} (f g : A -> bool) (l : list A) :
  filter g (filter f l) = filter (fun x => f x && g x) l.
Proof.
  induction l as [| a l IH]; simpl; [reflexivity |].
  destruct (f a); simpl; [destruct (g a) |]; rewrite IH; reflexivity.
Qed.

Lemma Extends_refl page : Extends page page.
Proof.
  split; [reflexivity |]; split.
  - exists []; split; [simpl; rewrite app_nil_r; reflexivity | constructor].
  - exists (fun _ => true); rewrite filter_true; reflexivity.
Qed.

Lemma Extends_trans p1 p2 p3 : Extends p1 p2 -> Extends p2 p3 -> Extends p1 p3.
Proof.
  intros (B1 & (ts1 & N1 & V1) & (k1 & W1)) (B2 & (ts2 & N2 & V2) & (k2 & W2)).
  split; [congruence |]; split.
  - exists (ts1 ++ ts2); split.
    + rewrite N2, N1, map_app, app_assoc; reflexivity.
    + apply Forall_app; split; assumption.
  - exists (fun w => k1 w && k2 w); rewrite W2, W1; apply filter_and.
Qed.

Lemma page_words_app l1 l2 b1 b2 :
  page_words (mkPage (l1 ++ l2) b1) = page_words (mkPage l1 b2) ++ page_words (mkPage l2 b2).
Proof. unfold page_words; simpl; apply flat_map_app. Qed.

Lemma addTable_Extends tableData page page' :
  addTable tableData page = Ok page' -> Extends page page'.
Proof.
  unfold addTable; intros H; inv_bind H.
  destruct (isFalseTable a) eqn:Hvalid; simpl in H; injection H as <-;
    [apply Extends_refl |].
  split; [reflexivity |]; split.
  - exists [a]; split; [| repeat constructor; exact Hvalid].
    unfold nonWords; simpl; rewrite filter_app; reflexivity.
  - exists (fun _ => true); rewrite filter_true.
    unfold page_words; simpl; rewrite flat_map_app; simpl; apply app_nil_r.
Qed.

Lemma page_words_filter (g : Element -> bool) (k : Word -> bool) l :
  (forall w, g (EWord w) = k w) ->
  flat_map (fun e => match e with EWord w => [w] | _ => [] end) (filter g l)
  = filter k (flat_map (fun e => match e with EWord w => [w] | _ => [] end) l).
Proof.
  intros Hg; induction l as [| e l IH]; simpl; [reflexivity |].
  destruct e as [w | t | id]; simpl.
  - rewrite Hg; destruct (k w); simpl; rewrite IH; reflexivity.
  - destruct (g (ETable t)); simpl; exact IH.
  - destruct (g (EOther id)); simpl; exact IH.
Qed.

Lemma removeWordsOfPage_Extends page : Extends page (removeWordsOfPage page).
Proof.
  split; [reflexivity |]; split.
  - exists []; split; [| constructor].
    rewrite removeWordsOfPage_nonWords; simpl; rewrite app_nil_r; reflexivity.
  - exists (fun w => negb (includes (cellWordsIds page) (w_id w))).
    unfold page_words, removeWordsOfPage; simpl.
    apply page_words_filter; intros w; simpl; apply orb_false_r.
Qed.

Lemma Forall2_set_nth {A : Type} (R : A -> A -> Prop) l l' i x x' :
  Forall2 R l l' -> nth_error l' i = Some x -> R x x' ->
  (forall a b c, R a b -> R b c -> R a c) ->
  Forall2 R l (set_nth i x' l').
Proof.
  intros H; revert i; induction H as [| a b l l' Hab Hl IH]; intros [| i] Hx Hxx Htr;
    simpl in *; try discriminate.
  - injection Hx as ->; constructor; [eapply Htr; eassumption | exact Hl].
  - constructor; [exact Hab | apply IH; assumption].
Qed.

Lemma addTableAt_Extends pages0 p doc td doc' :
  Forall2 Extends pages0 (d_pages doc) ->
  addTableAt p doc td = Ok doc' ->
  Forall2 Extends pages0 (d_pages doc').
Proof.
  intros H0; unfold addTableAt, pageAt.
  destruct (p - 1 <? 0)%Z; [discriminate |].
  destruct (nth_error (d_pages doc) (Z.to_nat (p - 1))) as [pg |] eqn:Hpg; [| discriminate].
  intros H; inv_bind H; injection H as <-; simpl.
  eapply Forall2_set_nth; eauto using addTable_Extends, Extends_trans.
Qed.

Lemma addTables_Extends pages0 payload doc doc' :
  Forall2 Extends pages0 (d_pages doc) ->
  addTables payload doc = Ok doc' ->
  Forall2 Extends pages0 (d_pages doc').
Proof.
  unfold addTables.
  apply (foldM_invariant (fun d => Forall2 Extends pages0 (d_pages d))).
  intros d pd d' Hd.
  apply (foldM_invariant (fun d => Forall2 Extends pages0 (d_pages d))); [| exact Hd].
  intros d1 td d2 Hd1; apply addTableAt_Extends, Hd1.
Qed.

Lemma Forall2_map_r {A : Type} (R : A -> A -> Prop) (f : A -> A) l l' :
  Forall2 R l l' -> (forall a b, R a b -> R a (f b)) -> Forall2 R l (map f l').
Proof.
  induction 1; simpl; intros Hf; constructor; auto.
Qed.

Lemma runPass_Extends rt ex pages0 doc config doc' :
  Forall2 Extends pages0 (d_pages doc) ->
  runPass rt ex doc config = Ok doc' ->
  Forall2 Extends pages0 (d_pages doc').
Proof.
  intros H0 H; unfold runPass in H; inv_bind H.
  destruct (status a =? 0)%Z; [| injection H as <-; exact H0].
  inv_bind H; inv_bind H; injection H as <-; simpl.
  apply Forall2_map_r; [eapply addTables_Extends; eassumption |].
  intros x y Hxy; eapply Extends_trans; [exact Hxy | apply removeWordsOfPage_Extends].
Qed.

Lemma Forall2_refl_Extends pages : Forall2 Extends pages pages.
Proof. induction pages; constructor; auto using Extends_refl. Qed.

Lemma main_inputFile rt ex runConfig doc doc' :
  main rt ex runConfig doc = Ok doc' -> d_inputFile doc' = d_inputFile doc.
Proof.
  unfold main.
  destruct (existsSync rt (d_inputFile doc)) as [[|] | e];
    try (intros [= <-]; reflexivity).
  intros H; inv_bind H; destruct a as [ext |]; [| injection H as <-; reflexivity].
  destruct (negb (ext =? "pdf")%string); [injection H as <-; reflexivity |].
  destruct (negb (List.length (doc_tables doc) =? 0)); [injection H as <-; reflexivity |].
  eapply runPasses_inputFile; exact H.
Qed.

(** X13: whatever the configuration and the extractor, a stage that
    returns has kept the input file, the number of pages and every
    page's box; on each page the elements that are not words are those
    of the input, in order, followed by the attached tables, each of
    which passed the validity check; and the words left on the page are
    words of the input page, in page order. *)
Theorem main_extends_pages rt ex runConfig doc doc' :
  main rt ex runConfig doc = Ok doc' ->
  d_inputFile doc' = d_inputFile doc
  /\ Forall2 Extends (d_pages doc) (d_pages doc').
Proof.
  intros Hmain; split; [eapply main_inputFile; exact Hmain |].
  unfold main in Hmain.
  destruct (existsSync rt (d_inputFile doc)) as [[|] | e];
    try (injection Hmain as <-; apply Forall2_refl_Extends).
  inv_bind Hmain; destruct a as [ext |];
    [| injection Hmain as <-; apply Forall2_refl_Extends].
  destruct (negb (ext =? "pdf")%string);
    [injection Hmain as <-; apply Forall2_refl_Extends |].
  destruct (negb (List.length (doc_tables doc) =? 0));
    [injection Hmain as <-; apply Forall2_refl_Extends |].
  revert Hmain.
  apply (foldM_invariant (fun d => Forall2 Extends (d_pages doc) (d_pages d)));
    [| apply Forall2_refl_Extends].
  intros d c d'; apply runPass_Extends.
Qed.

(** The lattice pass on the sample document. *)
Lemma main_extends_pages_witness :
  d_inputFile Sample.docA = d_inputFile Sample.doc1
  /\ Forall2 Extends (d_pages Sample.doc1) (d_pages Sample.docA).
Proof.
  apply (main_extends_pages Sample.runtimeA Sample.printer [Sample.lattice]);
    reflexivity.
Defined.








(** X15: a document that the stage has returned and that holds a table
    is handed back as it is when the stage runs on it again, with any
    configuration and any extractor. *)
Theorem main_again rt ex ex' runConfig runConfig' doc doc' :
  main rt ex runConfig doc = Ok doc' ->
  doc_tables doc' <> [] ->
  main rt ex' runConfig' doc' = Ok doc'.
Proof.
  intros Hmain Htables.
  pose proof (main_inputFile _ _ _ _ _ Hmain) as Hfile.
  unfold main in *; rewrite Hfile.
  destruct (existsSync rt (d_inputFile doc)) as [[|] | e]; try reflexivity.
  destruct (fileTypeExt rt (d_inputFile doc)) as [[ext |] | e]; simpl in *;
    [| reflexivity | discriminate].
  destruct (negb (ext =? "pdf")%string); [reflexivity |].
  destruct (doc_tables doc') as [| t ts]; [contradiction | reflexivity].
Qed.

(** A stream pass over the document that the lattice pass gave. *)
Lemma main_again_witness :
  main Sample.runtimeA Sample.printer [Sample.stream] Sample.docA = Ok Sample.docA.
Proof.
  apply (main_again Sample.runtimeA Sample.printer Sample.printer
           [Sample.lattice] [Sample.stream] Sample.doc1 Sample.docA).
  - reflexivity.
  - discriminate.
Defined.

(** ** Deduplication *)

Lemma filter_idem {A : Type} (f : A -> bool) (l : list A) :
  filter f (filter f l) = filter f l.
Proof.
  rewrite filter_and; apply filter_ext; intros a; destruct (f a); reflexivity.
Qed.

(** X16: removing the words used in cells a second time changes nothing,
    and a document without tables is left as it is. *)
Theorem removeWordsUsedInCells_idempotent document :
  removeWordsUsedInCells (removeWordsUsedInCells document)
  = removeWordsUsedInCells document
  /\ (doc_tables document = [] -> removeWordsUsedInCells document = document).
Proof.
  split.
  - unfold removeWordsUsedInCells; simpl; f_equal; rewrite map_map.
    apply map_ext; intros page.
    unfold removeWordsOfPage at 1; rewrite removeWordsOfPage_ids.
    unfold removeWordsOfPage; simpl; f_equal; apply filter_idem.
  - intros Hno; destruct document as [pages file]; unfold removeWordsUsedInCells; simpl.
    f_equal; rewrite <- (map_id pages) at 2; apply map_ext_in; intros page Hin.
    unfold removeWordsOfPage, cellWordsIds, page_cells.
    rewrite (flat_map_nil_inv page_tables _ page Hno Hin); simpl.
    destruct page as [els box]; simpl; f_equal.
    rewrite <- (filter_true els) at 2; apply filter_ext; intros [w | t | id]; reflexivity.
Qed.

Lemma removeWordsUsedInCells_idempotent_witness :
  removeWordsUsedInCells Sample.doc1 = Sample.doc1.
Proof.
  apply (proj2 (removeWordsUsedInCells_idempotent Sample.doc1)); reflexivity.
Defined.

(** ** Payload entries without tables *)

(** X17: a payload whose entries carry no table leaves the document as it
    is, whatever their page numbers: the page is looked up only when
    there is a table to add. *)
Theorem addTables_no_tables payload doc :
  Forall (fun pd => pd_tables pd = []) payload ->
  addTables payload doc = Ok doc.
Proof.
  unfold addTables; induction 1 as [| pd payload Hpd _ IH]; simpl; [reflexivity |].
  rewrite Hpd; simpl; exact IH.
Qed.

(** An entry for a page that the sample document does not have. *)
Lemma addTables_no_tables_witness :
  addTables [mkPageData 7 []] Sample.doc1 = Ok Sample.doc1.
Proof.
  apply (addTables_no_tables [mkPageData 7 []] Sample.doc1).
  constructor; [reflexivity | constructor].
Defined.

(** ** The default extractor *)



(** X19: given a page list, the default extractor never rejects and
    reports status 0 or 1; status 0 comes with an empty stderr, status 1
    with an empty stdout. *)
Theorem defaultExtractor_status detectTables inputFile options ps :
  o_pages options = Some ps ->
  exists r,
    @readTables (defaultExtractor detectTables) inputFile options = Ok r
    /\ (status r = 0%Z \/ status r = 1%Z)
    /\ (status r = 0%Z -> stderr r = EmptyString)
    /\ (status r = 1%Z -> stdout r = EmptyString).
Proof.
  intros Hps; simpl; rewrite Hps.
  match goal with |- context [detectTables ?a ?b ?c ?d ?e] =>
    destruct (detectTables a b c d e) as [out | err] end;
    eexists; (split; [reflexivity |]); simpl;
    repeat split; auto; discriminate.
Qed.

Lemma defaultExtractor_status_witness :
  exists r,
    @readTables (defaultExtractor Sample.failingDetector) "in.pdf"%string Sample.stream = Ok r
    /\ (status r = 0%Z \/ status r = 1%Z)
    /\ (status r = 0%Z -> stderr r = EmptyString)
    /\ (status r = 1%Z -> stdout r = EmptyString).
Proof.
  apply (defaultExtractor_status Sample.failingDetector "in.pdf"%string Sample.stream []);
    reflexivity.
Defined.

(** X20: a configuration without a page list makes the default extractor
    throw a TypeError, and the stage with it when that configuration is
    the first to run on a PDF that holds no table. *)
Theorem missing_pages_throws rt detectTables flavor areas rest doc :
  existsSync rt (d_inputFile doc) = Ok true ->
  fileTypeExt rt (d_inputFile doc) = Ok (Some "pdf"%string) ->
  doc_tables doc = [] ->
  @readTables (defaultExtractor detectTables) (d_inputFile doc)
              (mkOptions None flavor areas) = Throw TypeError
  /\ main rt (defaultExtractor detectTables)
          (mkOptions None flavor areas :: rest) doc = Throw TypeError.
Proof.
  intros H1 H2 H3; split; [reflexivity |].
  rewrite main_passes by assumption; reflexivity.
Qed.

Lemma missing_pages_throws_witness :
  @readTables (defaultExtractor Sample.failingDetector) (d_inputFile Sample.doc1)
    (mkOptions None None None) = Throw TypeError
  /\ main (Sample.runtimeWith Sample.noJson) (defaultExtractor Sample.failingDetector)
       [mkOptions None None None] Sample.doc1 = Throw TypeError.
Proof.
  apply (missing_pages_throws (Sample.runtimeWith Sample.noJson) Sample.failingDetector
           None None [] Sample.doc1); reflexivity.
Defined.

(** ** Words across passes *)

Lemma main_Deduplicated rt ex runConfig doc doc' :
  doc_tables doc = [] ->
  main rt ex runConfig doc = Ok doc' ->
  Forall Deduplicated (d_pages doc').
Proof.
  intros Hno Hmain.
  pose proof (no_tables_Deduplicated doc Hno) as H0.
  unfold main in Hmain.
  destruct (existsSync rt (d_inputFile doc)) as [[|] | e];
    try (injection Hmain as <-; exact H0).
  inv_bind Hmain; destruct a as [ext |]; [| injection Hmain as <-; exact H0].
  destruct (negb (ext =? "pdf")%string); [injection Hmain as <-; exact H0 |].
  rewrite Hno in Hmain; simpl in Hmain.
  revert Hmain;
    apply (foldM_invariant (fun d => Forall Deduplicated (d_pages d))); [| exact H0].
  intros d c d'; apply runPass_Deduplicated.
Qed.

(** X21: a table reconstructed on a page that the stage has handed back
    takes no word that a cell of a table already on that page
    references: across passes no word is referenced twice. *)
Theorem later_pass_takes_fresh_words rt ex runConfig doc doc' tableData page trs tr c w :
  doc_tables doc = [] ->
  main rt ex runConfig doc = Ok doc' ->
  In page (d_pages doc') ->
  createRows tableData page = Ok trs ->
  In tr trs -> In c (r_content tr) -> In w (c_content c) ->
  ~ In (w_id w) (cellWordsIds page).
Proof.
  intros Hno Hmain Hpage Hrows Htr Hc Hw.
  pose proof (main_Deduplicated _ _ _ _ _ Hno Hmain) as Hded.
  rewrite Forall_forall in Hded.
  destruct (cells_hold_words_of_the_page _ _ _ _ _ Hrows Htr Hc) as (b & _ & _ & Hwords).
  apply (Hded page Hpage w), (Hwords w Hw).
Qed.

(** After the lattice pass on the page with two words, the table around
    the word that is left takes that word only. *)
Lemma later_pass_takes_fresh_words_witness :
  ~ In 5 (cellWordsIds Demo.pageTwoA).
Proof.
  apply (later_pass_takes_fresh_words Sample.runtimeA Sample.printer [Sample.lattice]
           Demo.docTwo Demo.docTwoA Demo.tableFar Demo.pageTwoA Demo.rowsFar
           (nth 0 Demo.rowsFar (mkRow [] (Sample.box 0 0 0 0)))
           (TableCell (Some (Sample.box 40 0 10 10)) [Demo.wordFar] None None)
           Demo.wordFar).
  - reflexivity.
  - reflexivity.
  - left; reflexivity.
  - reflexivity.
  - left; reflexivity.
  - left; reflexivity.
  - left; reflexivity.
Defined.

